(** * A shallow embedding of the game core of NCC-1701-D

    Covered modules: [src/game/combat-system.ts] (damage, hit checks and the
    win/lose check), [src/game/ship-controller.ts] (the per-frame flight
    update), the weapon and warp-travel parts of
    [src/game/universe-manager.ts], the behaviour machine of
    [src/game/enemy-ai.ts], the input flags of [src/game/input-manager.ts]
    and the game-state effects of the voice command executor.

    JavaScript numbers are modelled as exact rationals [Q]: every constant
    the code uses (0.7, 0.5, 0.05, 2.0, ...) is a finite decimal, so the
    arithmetic is that of the code without its rounding.  Ammunition,
    which the code only ever changes by whole units, is a [Z].  Mutation
    of a record is modelled by returning the updated record. *)

From Stdlib Require Import QArith Qminmax ZArith List String Bool Lia Lqa.
Import ListNotations.
Open Scope Q_scope.

(** [Math.max] and [Math.min] on two numbers. *)
Definition js_max (a b : Q) : Q := if Qle_bool a b then b else a.
Definition js_min (a b : Q) : Q := if Qle_bool a b then a else b.

(** Comparisons used as conditions ([a < b], [a <= b]). *)
Definition qlt (a b : Q) : bool := negb (Qle_bool b a).
Definition qle (a b : Q) : bool := Qle_bool a b.

(* ================================================================== *)
(** ** combat-system.ts *)

Module Combat.

Definition PHASER_DPS : Q := 8.
Definition TORPEDO_DAMAGE : Q := 18.
Definition HIT_DISTANCE_PHASER : Q := 20.
Definition HIT_DISTANCE_TORPEDO : Q := 12.
Definition SHIELD_ABSORPTION : Q := 7 # 10.

Record ShipHealth := mkShipHealth {
  hull : Q;
  maxHull : Q;
  shieldsUp : bool;
  shieldStrength : Q;
  isDestroyed : bool;
  damageFlash : Q
}.

Inductive GameOver := victory | defeat.

Record CombatState := mkCombatState {
  playerHealth : ShipHealth;
  enemyHealth : ShipHealth;
  gameOver : option GameOver
}.

Definition createShipHealth (maxHull : Q) : ShipHealth :=
  {| hull := maxHull; maxHull := maxHull; shieldsUp := false;
     shieldStrength := 100; isDestroyed := false; damageFlash := 0 |}.

Definition createCombatState : CombatState :=
  {| playerHealth := createShipHealth 100;
     enemyHealth := createShipHealth 100;
     gameOver := None |}.

(** [applyDamage(health, rawDamage)]: each assignment of the source is one
    [let] below, in the source's order. *)
Definition applyDamage (health : ShipHealth) (rawDamage : Q) : ShipHealth :=
  if isDestroyed health then health else
  let '(strength, up, effectiveDamage) :=
    if shieldsUp health && qlt 0 (shieldStrength health) then
      let absorbed := rawDamage * SHIELD_ABSORPTION in
      let strength := js_max 0 (shieldStrength health - absorbed * (1 # 2)) in
      (strength,
       (if qle strength 0 then false else shieldsUp health),
       rawDamage - absorbed)
    else (shieldStrength health, shieldsUp health, rawDamage) in
  let hull' := js_max 0 (hull health - effectiveDamage) in
  {| hull := hull';
     maxHull := maxHull health;
     shieldsUp := up;
     shieldStrength := strength;
     isDestroyed := if qle hull' 0 then true else isDestroyed health;
     damageFlash := 1 |}.

Definition setEnemyHealth (c : CombatState) (h : ShipHealth) : CombatState :=
  {| playerHealth := playerHealth c; enemyHealth := h; gameOver := gameOver c |}.

Definition setPlayerHealth (c : CombatState) (h : ShipHealth) : CombatState :=
  {| playerHealth := h; enemyHealth := enemyHealth c; gameOver := gameOver c |}.

(** [applyEnemyDamageToPlayer(combat, damage)]. *)
Definition applyEnemyDamageToPlayer (c : CombatState) (damage : Q) : CombatState :=
  setPlayerHealth c (applyDamage (playerHealth c) damage).

(** The flash decay of one record in [updateCombatTimers]. *)
Definition decayFlash (h : ShipHealth) (delta : Q) : ShipHealth :=
  if qlt 0 (damageFlash h) then
    {| hull := hull h; maxHull := maxHull h; shieldsUp := shieldsUp h;
       shieldStrength := shieldStrength h; isDestroyed := isDestroyed h;
       damageFlash := js_max 0 (damageFlash h - 3 * delta) |}
  else h.

(** [updateCombatTimers(combat, delta)]. *)
Definition updateCombatTimers (c : CombatState) (delta : Q) : CombatState :=
  let p := decayFlash (playerHealth c) delta in
  let e := decayFlash (enemyHealth c) delta in
  let go :=
    match gameOver c with
    | None =>
        if isDestroyed e then Some victory
        else if isDestroyed p then Some defeat
        else None
    | Some g => Some g
    end in
  {| playerHealth := p; enemyHealth := e; gameOver := go |}.

(** The two combat operations of the claims, as a step of a trace. *)
Inductive CombatOp :=
| DamagePlayer (rawDamage : Q)
| DamageEnemy (rawDamage : Q)
| Timers (delta : Q).

Definition combatStep (c : CombatState) (op : CombatOp) : CombatState :=
  match op with
  | DamagePlayer d => setPlayerHealth c (applyDamage (playerHealth c) d)
  | DamageEnemy d => setEnemyHealth c (applyDamage (enemyHealth c) d)
  | Timers dt => updateCombatTimers c dt
  end.

Definition runCombat (c : CombatState) (ops : list CombatOp) : CombatState :=
  fold_left combatStep ops c.

End Combat.

(* ================================================================== *)
(** ** input-manager.ts *)

Module Input.

(** The two sets of an [InputManager]: keys held, and keys newly pressed
    and not yet consumed. *)
Record InputManager := mkInput {
  keys : list string;
  justPressed : list string
}.

Definition isPressed (i : InputManager) (code : string) : bool :=
  existsb (String.eqb code) (keys i).

(** [wasJustPressed] consumes the flag it reports. *)
Definition wasJustPressed (i : InputManager) (code : string)
    : bool * InputManager :=
  if existsb (String.eqb code) (justPressed i) then
    (true, {| keys := keys i;
              justPressed := filter (fun c => negb (String.eqb code c))
                                    (justPressed i) |})
  else (false, i).

End Input.

(* ================================================================== *)
(** ** game-state.ts and ship-controller.ts *)

Module Ship.
Import Input.

(** The scalar part of [GameState].  The transform (quaternion, position,
    velocity) is left out: [updateShip] reads only [speed] from this part
    to integrate it, and nothing below reads it back. *)
Record GameState := mkGameState {
  throttle : Q;
  speed : Q;
  isWarp : bool;
  shieldsActive : bool;
  shieldStrength : Q;
  phaserCharge : Q;
  torpedoCount : Z;
  phaserFiring : bool;
  torpedoFiring : bool
}.

Definition INITIAL_TORPEDO_COUNT : Z := 64.

Definition createGameState : GameState :=
  {| throttle := 0; speed := 0; isWarp := false;
     shieldsActive := false; shieldStrength := 100;
     phaserCharge := 100; torpedoCount := INITIAL_TORPEDO_COUNT;
     phaserFiring := false; torpedoFiring := false |}.

Definition IMPULSE_MAX_SPEED : Q := 1.
Definition WARP_MULTIPLIER : Q := 8.
Definition PHASER_RECHARGE : Q := 10.

Definition set_throttle (s : GameState) (t : Q) : GameState :=
  {| throttle := t; speed := speed s; isWarp := isWarp s;
     shieldsActive := shieldsActive s; shieldStrength := shieldStrength s;
     phaserCharge := phaserCharge s; torpedoCount := torpedoCount s;
     phaserFiring := phaserFiring s; torpedoFiring := torpedoFiring s |}.

Definition set_isWarp (s : GameState) (b : bool) : GameState :=
  {| throttle := throttle s; speed := speed s; isWarp := b;
     shieldsActive := shieldsActive s; shieldStrength := shieldStrength s;
     phaserCharge := phaserCharge s; torpedoCount := torpedoCount s;
     phaserFiring := phaserFiring s; torpedoFiring := torpedoFiring s |}.

(** The key name [`Digit${d}`]. *)
Definition digitKey (d : nat) : string :=
  String.append "Digit" (String (Ascii.ascii_of_nat (48 + d)) EmptyString).

(** The loop [for (let d = 0; d <= 9; d++)] over the digit keys, from
    digit [d] on ([n] iterations left). *)
Fixpoint throttleKeys (n d : nat) (s : GameState) (i : InputManager)
    : GameState * InputManager :=
  match n with
  | O => (s, i)
  | S n' =>
      let '(pressed, i1) := wasJustPressed i (digitKey d) in
      let s1 := if pressed
                then set_throttle s (if Nat.eqb d 0 then 0
                                     else inject_Z (Z.of_nat d) / 9)
                else s in
      throttleKeys n' (S d) s1 i1
  end.

(** The warp toggle and the auto-disengage of [updateShip]. *)
Definition warpControl (s : GameState) (i : InputManager)
    : GameState * InputManager :=
  let '(caps, i1) := wasJustPressed i "CapsLock" in
  let s1 := if caps then
              if negb (isWarp s) && qlt (1 # 10) (throttle s)
              then set_isWarp s true else set_isWarp s false
            else s in
  let s2 := if isWarp s1 && qle (throttle s1) (1 # 20)
            then set_isWarp s1 false else s1 in
  (s2, i1).

(** [updateShip(state, input, delta)], the scalar part, statement by
    statement. *)
Definition updateShip (s0 : GameState) (i0 : InputManager) (delta : Q)
    : GameState * InputManager :=
  let '(s1, i1) := throttleKeys 10 0 s0 i0 in
  let '(s2, i2) := warpControl s1 i1 in
  let targetSpeed := throttle s2 * IMPULSE_MAX_SPEED in
  let effectiveTarget :=
    if isWarp s2 then targetSpeed * WARP_MULTIPLIER else targetSpeed in
  let accelRate := 5 # 2 in
  let speed3 :=
    if qlt (speed s2) effectiveTarget
    then js_min effectiveTarget (speed s2 + accelRate * delta)
    else if qlt effectiveTarget (speed s2)
    then js_max effectiveTarget (speed s2 - accelRate * delta)
    else speed s2 in
  let charge :=
    if qlt (phaserCharge s2) 100
    then js_min 100 (phaserCharge s2 + PHASER_RECHARGE * delta)
    else phaserCharge s2 in
  let phaserFiring' := isPressed i2 "Space" && qlt 5 charge in
  let '(t, i3) := wasJustPressed i2 "KeyT" in
  let torpedoFiring' := t && Z.ltb 0 (torpedoCount s2) in
  let '(x, i4) := wasJustPressed i3 "KeyX" in
  let active := if x then negb (shieldsActive s2) else shieldsActive s2 in
  let '(active', strength') :=
    if active && qlt 0 (shieldStrength s2) then
      let st := js_max 0 (shieldStrength s2 - (1 # 2) * delta) in
      (if qle st 0 then false else active, st)
    else (active, shieldStrength s2) in
  ({| throttle := throttle s2; speed := speed3; isWarp := isWarp s2;
      shieldsActive := active'; shieldStrength := strength';
      phaserCharge := charge; torpedoCount := torpedoCount s2;
      phaserFiring := phaserFiring'; torpedoFiring := torpedoFiring' |}, i4).

End Ship.

(* ================================================================== *)
(** ** universe-manager.ts: [updateWeapons] *)

Module Weapons.
Import Ship.

(** Projectile records; the meshes are left out, keeping the fields the
    update reads and writes (ages, and the core's material opacity). *)
Record PhaserBeam := mkBeam { bage : Q; bmaxAge : Q }.
Record PhotonTorpedo := mkTorpedo { tage : Q; tmaxAge : Q }.

Record WeaponSystemState := mkWeapons {
  phaserBeams : list PhaserBeam;
  phaserCores : list Q;            (* opacity of each core's material *)
  torpedoes : list PhotonTorpedo;
  phaserCooldown : Q
}.

Definition createWeaponSystem : WeaponSystemState :=
  {| phaserBeams := []; phaserCores := []; torpedoes := [];
     phaserCooldown := 0 |}.

Definition PHASER_DRAIN_RATE : Q := 35.
Definition PHASER_COOLDOWN : Q := 15 # 100.

Definition createPhaserBeamMesh : PhaserBeam := mkBeam 0 (1 # 2).
Definition createPhaserCoreOpacity : Q := 3 # 10.
Definition createTorpedoMesh : PhotonTorpedo := mkTorpedo 0 5.

(** [updateTorpedo]: the age advance (steering moves only the mesh). *)
Definition updateTorpedo (t : PhotonTorpedo) (delta : Q) : PhotonTorpedo :=
  mkTorpedo (tage t + delta) (tmaxAge t).

(** The reverse-index loops with [splice]: keep the survivors in order. *)
Definition ageBeams (bs : list PhaserBeam) (delta : Q) : list PhaserBeam :=
  filter (fun b => negb (qle (bmaxAge b) (bage b)))
         (map (fun b => mkBeam (bage b + delta) (bmaxAge b)) bs).

Definition ageCores (cs : list Q) (delta : Q) : list Q :=
  filter (fun o => negb (qle o 0)) (map (fun o => o - delta * (3 # 5)) cs).

Definition ageTorpedoes (ts : list PhotonTorpedo) (delta : Q)
    : list PhotonTorpedo :=
  filter (fun t => negb (qle (tmaxAge t) (tage t)))
         (map (fun t => updateTorpedo t delta) ts).

(** The [--- Photon torpedoes ---] block: launch one torpedo. *)
Definition fireTorpedo (torps : list PhotonTorpedo) (gs : GameState)
    : list PhotonTorpedo * GameState :=
  if torpedoFiring gs && Z.ltb 0 (torpedoCount gs) then
    (torps ++ [createTorpedoMesh],
     {| throttle := throttle gs; speed := speed gs; isWarp := isWarp gs;
        shieldsActive := shieldsActive gs; shieldStrength := shieldStrength gs;
        phaserCharge := phaserCharge gs;
        torpedoCount := (torpedoCount gs - 1)%Z;
        phaserFiring := phaserFiring gs; torpedoFiring := false |})
  else (torps, gs).

(** [updateWeapons(ws, gameState, scene, shipGroup, delta)]. *)
Definition updateWeapons (ws : WeaponSystemState) (gs : GameState) (delta : Q)
    : WeaponSystemState * GameState :=
  let cd := js_max 0 (phaserCooldown ws - delta) in
  let '(beams, cores, cd') :=
    if phaserFiring gs && qlt 5 (phaserCharge gs) && qle cd 0
    then (phaserBeams ws ++ [createPhaserBeamMesh],
          phaserCores ws ++ [createPhaserCoreOpacity], PHASER_COOLDOWN)
    else (phaserBeams ws, phaserCores ws, cd) in
  let gs1 :=
    if phaserFiring gs then
      let charge := js_max 0 (phaserCharge gs - PHASER_DRAIN_RATE * delta) in
      {| throttle := throttle gs; speed := speed gs; isWarp := isWarp gs;
         shieldsActive := shieldsActive gs; shieldStrength := shieldStrength gs;
         phaserCharge := charge; torpedoCount := torpedoCount gs;
         phaserFiring := if qle charge 0 then false else phaserFiring gs;
         torpedoFiring := torpedoFiring gs |}
    else gs in
  let beams' := ageBeams beams delta in
  let cores' := ageCores cores delta in
  let '(torps, gs2) := fireTorpedo (torpedoes ws) gs1 in
  ({| phaserBeams := beams'; phaserCores := cores';
      torpedoes := ageTorpedoes torps delta; phaserCooldown := cd' |}, gs2).

End Weapons.

(* ================================================================== *)
(** ** three.js vectors and quaternions, as the code uses them *)

Module Vec.

Record Vector3 := mkVec { x : Q; y : Q; z : Q }.
Record Quaternion := mkQuat { qx : Q; qy : Q; qz : Q; qw : Q }.

Definition vsub (a b : Vector3) : Vector3 := mkVec (x a - x b) (y a - y b) (z a - z b).
Definition vadd (a b : Vector3) : Vector3 := mkVec (x a + x b) (y a + y b) (z a + z b).
Definition vscale (k : Q) (a : Vector3) : Vector3 := mkVec (k * x a) (k * y a) (k * z a).
Definition vdot (a b : Vector3) : Q := x a * x b + y a * y b + z a * z b.
Definition lengthSq (a : Vector3) : Q := vdot a a.

(** [Vector3.applyQuaternion] of three.js. *)
Definition applyQuaternion (v : Vector3) (q : Quaternion) : Vector3 :=
  let tx := 2 * (qy q * z v - qz q * y v) in
  let ty := 2 * (qz q * x v - qx q * z v) in
  let tz := 2 * (qx q * y v - qy q * x v) in
  mkVec (x v + qw q * tx + qy q * tz - qz q * ty)
        (y v + qw q * ty + qz q * tx - qx q * tz)
        (z v + qw q * tz + qx q * ty - qy q * tx).

(** Ship forward in local space, [(0, 0, -1)], turned by [q]. *)
Definition forwardOf (q : Quaternion) : Vector3 :=
  applyQuaternion (mkVec 0 0 (-1)) q.

Section Length.
(** [Math.sqrt]. *)
Variable sqrt : Q -> Q.

Definition vlength (a : Vector3) : Q := sqrt (lengthSq a).

(** [normalize()] is [divideScalar(this.length() || 1)]. *)
Definition normalize (a : Vector3) : Vector3 :=
  let l := vlength a in
  vscale (1 / (if Qeq_bool l 0 then 1 else l)) a.

End Length.

(** A square root exact on squares of rationals, for evaluating examples. *)
Definition sqrtQ (a : Q) : Q :=
  Z.sqrt (Qnum a * Zpos (Qden a)) # Qden a.

End Vec.

(* ================================================================== *)
(** ** combat-system.ts: [checkPhaserHits] *)

Module Phaser.
Import Combat Vec.

(** The fields of [GameState] that [checkPhaserHits] reads. *)
Record PlayerView := mkPlayerView {
  pposition : Vector3;
  pquaternion : Quaternion;
  pphaserFiring : bool
}.

Section Hits.
Variable sqrt : Q -> Q.

(** [Math.max(0.85, 1.0 - (30 / Math.max(dist, 1)))]. *)
Definition minDotAt (dist : Q) : Q := js_max (85 # 100) (1 - 30 / js_max dist 1).

(** [checkPhaserHits(combat, playerState, enemyPosition, delta)]: the
    updated combat state and the returned boolean. *)
Definition checkPhaserHits (c : CombatState) (ps : PlayerView)
    (enemyPosition : Vector3) (delta : Q) : CombatState * bool :=
  if negb (pphaserFiring ps) || isDestroyed (enemyHealth c) then (c, false) else
  let toEnemy := vsub enemyPosition (pposition ps) in
  let dist := vlength sqrt toEnemy in
  if qlt 200 dist then (c, false) else
  let forward := forwardOf (pquaternion ps) in
  let dot := vdot forward (normalize sqrt toEnemy) in
  let minDot := minDotAt dist in
  if qlt minDot dot
  then (setEnemyHealth c (applyDamage (enemyHealth c) (PHASER_DPS * delta)), true)
  else (c, false).

End Hits.
End Phaser.

(* ================================================================== *)
(** ** enemy-ai.ts: [updateEnemyAI] *)

Module Enemy.
Import Combat Vec.

Definition ENEMY_SPEED : Q := 8.
Definition ENEMY_TURN_SPEED : Q := 6 # 10.
Definition DETECTION_RANGE : Q := 500.
Definition ATTACK_RANGE : Q := 150.
Definition PHASER_RANGE : Q := 120.
Definition PHASER_COOLDOWN : Q := 2.
Definition TORPEDO_COOLDOWN : Q := 5.
Definition PHASER_BURST_DPS : Q := 6.
Definition TORPEDO_DAMAGE : Q := 15.
Definition EVASIVE_HULL_THRESHOLD : Q := 30.

Inductive EnemyBehavior := idle | alert | attack | evasive.

(** [EnemyShip] without its scene objects ([group], [phaserBeam] and
    their flags), which only the visuals read. *)
Record EnemyShip := mkEnemy {
  position : Vector3;
  quaternion : Quaternion;
  behavior : EnemyBehavior;
  speed : Q;
  phaserCooldown : Q;
  torpedoCooldown : Q;
  phaserFiring : bool;
  torpedoJustFired : bool;
  alertTimer : Q;
  orbitAngle : Q;
  orbitCenter : Vector3;
  orbitRadius : Q
}.

(** The inputs a frame draws from the host: [Math.random()] (drawn at most
    once per frame) and [Date.now()]. *)
Record Frame := mkFrame { fdelta : Q; frandom : Q; fnow : Q }.

Section AI.
(** [Math.sqrt], [Math.cos], [Math.sin]. *)
Variables (sqrt cos sin : Q -> Q).
(** [lookAt] from a position to a target, [setFromRotationMatrix], then
    [slerp] of the current orientation toward it by the given fraction
    and [normalize]: the orientation [turnToward] ends with. *)
Variable lookSlerp : Quaternion -> Vector3 -> Vector3 -> Q -> Quaternion.

(** [turnToward(enemy, target, delta)]: the new orientation. *)
Definition turnToward (e : EnemyShip) (target : Vector3) (delta : Q) : Quaternion :=
  let toTarget := vsub target (position e) in
  if qlt (lengthSq toTarget) (1 # 100) then quaternion e
  else lookSlerp (quaternion e) (position e) target
                 (js_min (ENEMY_TURN_SPEED * delta) 1).

Definition rebuild (e : EnemyShip) (pos : Vector3) (q : Quaternion)
    (beh : EnemyBehavior) (spd pcd tcd : Q) (pf tj : bool) (timer ang : Q)
    : EnemyShip :=
  {| position := pos; quaternion := q; behavior := beh; speed := spd;
     phaserCooldown := pcd; torpedoCooldown := tcd; phaserFiring := pf;
     torpedoJustFired := tj; alertTimer := timer; orbitAngle := ang;
     orbitCenter := orbitCenter e; orbitRadius := orbitRadius e |}.

Definition raiseShields (h : ShipHealth) : ShipHealth :=
  {| hull := hull h; maxHull := maxHull h; shieldsUp := true;
     shieldStrength := shieldStrength h; isDestroyed := isDestroyed h;
     damageFlash := damageFlash h |}.

(** The [switch (enemy.behavior)] of [updateEnemyAI], after the distance,
    the per-frame flags and the cooldowns. *)
Definition behaviorStep (e : EnemyShip) (player : Vector3) (c : CombatState)
    (f : Frame) (dist pcd tcd : Q) : EnemyShip * CombatState :=
  let delta := fdelta f in
  match behavior e with
  | idle =>
      let ang := orbitAngle e + delta * (15 # 100) in
      let oc := orbitCenter e in
      let pos := mkVec (x oc + cos ang * orbitRadius e) (y oc)
                       (z oc + sin ang * orbitRadius e) in
      if qlt dist DETECTION_RANGE
      then (rebuild e pos (quaternion e) alert 0 pcd tcd false false 2 ang, c)
      else (rebuild e pos (quaternion e) idle 0 pcd tcd false false
                    (alertTimer e) ang, c)
  | alert =>
      let q := turnToward e player delta in
      let timer := alertTimer e - delta in
      let c1 := setEnemyHealth c (raiseShields (enemyHealth c)) in
      let beh := if qle timer 0 then attack else alert in
      (rebuild e (position e) q beh 0 pcd tcd false false timer (orbitAngle e), c1)
  | attack =>
      if qlt (hull (enemyHealth c)) EVASIVE_HULL_THRESHOLD
      then (rebuild e (position e) (quaternion e) evasive (speed e) pcd tcd
                    false false (alertTimer e) (orbitAngle e), c)
      else
      let q := turnToward e player delta in
      let spd := if qlt ATTACK_RANGE dist then ENEMY_SPEED
                 else if qlt dist (ATTACK_RANGE * (4 # 10))
                 then ENEMY_SPEED * (3 # 10)
                 else ENEMY_SPEED * (1 # 2) in
      let facingDot := vdot (forwardOf q)
                            (normalize sqrt (vsub player (position e))) in
      let '(pf, pcd1, c1) :=
        if qlt (8 # 10) facingDot && qlt dist PHASER_RANGE && qle pcd 0
        then (true,
              (if qlt (frandom f) (delta * (8 # 10)) then PHASER_COOLDOWN else pcd),
              applyEnemyDamageToPlayer c (PHASER_BURST_DPS * delta))
        else (false, pcd, c) in
      let '(tj, tcd1, c2) :=
        if qlt (9 # 10) facingDot && qlt dist ATTACK_RANGE && qle tcd 0
        then (true, TORPEDO_COOLDOWN, applyEnemyDamageToPlayer c1 TORPEDO_DAMAGE)
        else (false, tcd, c1) in
      (rebuild e (position e) q attack spd pcd1 tcd1 pf tj (alertTimer e)
               (orbitAngle e), c2)
  | evasive =>
      let dir := normalize sqrt (mkVec (sin (fnow f * (1 # 1000)) * (1 # 2))
                                       (cos (fnow f * (15 # 10000)) * (3 # 10))
                                       (-1)) in
      let evasiveDir := applyQuaternion dir (quaternion e) in
      let targetPos := vadd (position e) (vscale 50 evasiveDir) in
      let q := turnToward e targetPos (delta * (3 # 2)) in
      let spd := ENEMY_SPEED * (6 # 5) in
      let evDot := vdot (forwardOf q)
                        (normalize sqrt (vsub player (position e))) in
      let '(pf, pcd1, c1) :=
        if qlt (7 # 10) evDot && qlt dist PHASER_RANGE && qle pcd 0
        then (true,
              (if qlt (frandom f) (delta * (1 # 2))
               then PHASER_COOLDOWN * (3 # 2) else pcd),
              applyEnemyDamageToPlayer c (PHASER_BURST_DPS * delta * (1 # 2)))
        else (false, pcd, c) in
      let beh :=
        if qlt (EVASIVE_HULL_THRESHOLD + 10) (hull (enemyHealth c1))
           || qlt DETECTION_RANGE dist
        then attack else evasive in
      (rebuild e (position e) q beh spd pcd1 tcd pf false (alertTimer e)
               (orbitAngle e), c1)
  end.

(** The [── Move ──] block. *)
Definition moveEnemy (e : EnemyShip) (delta : Q) : EnemyShip :=
  if qlt 0 (speed e) then
    rebuild e (vadd (position e) (vscale (speed e * delta) (forwardOf (quaternion e))))
            (quaternion e) (behavior e) (speed e) (phaserCooldown e)
            (torpedoCooldown e) (phaserFiring e) (torpedoJustFired e)
            (alertTimer e) (orbitAngle e)
  else e.

(** [updateEnemyAI(enemy, playerState, combat, scene, delta)], with the
    player's position for [playerState]. *)
Definition updateEnemyAI (e : EnemyShip) (player : Vector3) (c : CombatState)
    (f : Frame) : EnemyShip * CombatState :=
  let delta := fdelta f in
  if isDestroyed (enemyHealth c) then
    (rebuild e (position e) (quaternion e) (behavior e) 0 (phaserCooldown e)
             (torpedoCooldown e) false (torpedoJustFired e) (alertTimer e)
             (orbitAngle e), c)
  else
  let dist := vlength sqrt (vsub player (position e)) in
  let pcd := js_max 0 (phaserCooldown e - delta) in
  let tcd := js_max 0 (torpedoCooldown e - delta) in
  let '(e1, c1) := behaviorStep e player c f dist pcd tcd in
  (moveEnemy e1 delta, c1).

(** Successive frames with the player held at one position. *)
Fixpoint runEnemyAI (e : EnemyShip) (player : Vector3) (c : CombatState)
    (fs : list Frame) : EnemyShip * CombatState :=
  match fs with
  | [] => (e, c)
  | f :: fs' =>
      let '(e1, c1) := updateEnemyAI e player c f in
      runEnemyAI e1 player c1 fs'
  end.

End AI.
End Enemy.

(* ================================================================== *)
(** ** combat-system.ts: [checkTorpedoHits] *)

Module TorpedoHits.
Import Combat Vec.

Section Hits.
Variable sqrt : Q -> Q.

Definition distanceTo (a b : Vector3) : Q := vlength sqrt (vsub a b).

(** The [for] loop from index [i]: hit indices, and the enemy's health
    after one [applyDamage(enemy, TORPEDO_DAMAGE)] per hit. *)
Fixpoint hitLoop (i : nat) (ts : list Vector3) (enemyPosition : Vector3)
    (eh : ShipHealth) : list nat * ShipHealth :=
  match ts with
  | [] => ([], eh)
  | t :: ts' =>
      if qlt (distanceTo t enemyPosition) HIT_DISTANCE_TORPEDO
      then let '(hs, eh') := hitLoop (S i) ts' enemyPosition
                                     (applyDamage eh TORPEDO_DAMAGE) in
           (i :: hs, eh')
      else hitLoop (S i) ts' enemyPosition eh
  end.

(** [checkTorpedoHits(combat, torpedoPositions, enemyPosition)]. *)
Definition checkTorpedoHits (c : CombatState) (ts : list Vector3)
    (enemyPosition : Vector3) : CombatState * list nat :=
  if isDestroyed (enemyHealth c) then (c, []) else
  let '(hs, eh) := hitLoop 0 ts enemyPosition (enemyHealth c) in
  (setEnemyHealth c eh, hs).

End Hits.

(** [syncPlayerShields(combat, gs)] with [gs.shieldsActive] and
    [gs.shieldStrength]. *)
Definition syncPlayerShields (c : CombatState) (active : bool) (strength : Q)
    : CombatState :=
  let h := playerHealth c in
  setPlayerHealth c {| hull := hull h; maxHull := maxHull h;
                       shieldsUp := active; shieldStrength := strength;
                       isDestroyed := isDestroyed h;
                       damageFlash := damageFlash h |}.

End TorpedoHits.

(* ================================================================== *)
(** ** universe-manager.ts: warp travel between star systems *)

Module Travel.
Import Ship.

(** The fields of a [StarSystem] that travel reads. *)
Record StarSystem := mkSystem {
  sid : string;
  mapX : Q;
  mapY : Q;
  connections : list string;
  discovered : bool
}.

Inductive TravelPhase := tidle | charging | warping | arriving.

Record UniverseState := mkUniverse {
  currentSystemId : string;
  currentSystem : StarSystem;
  destinationId : option string;
  destination : option StarSystem;
  travelPhase : TravelPhase;
  travelProgress : Q;
  travelDuration : Q;
  travelTimer : Q;
  starMapOpen : bool
}.

Inductive TravelResult := none | started_warp | arrived.

Definition WARP_CHARGE_TIME : Q := 2.
Definition WARP_MIN_DURATION : Q := 3.
Definition WARP_SPEED_FACTOR : Q := 25 # 1000.
Definition ARRIVAL_TIME : Q := 3 # 2.

Definition travelPhase_eqb (a b : TravelPhase) : bool :=
  match a, b with
  | tidle, tidle | charging, charging | warping, warping
  | arriving, arriving => true
  | _, _ => false
  end.

(** [.filter((s): s is StarSystem => s !== undefined)] after [.map]. *)
Fixpoint somes {A} (l : list (option A)) : list A :=
  match l with
  | [] => []
  | Some a :: l' => a :: somes l'
  | None :: l' => somes l'
  end.

Definition setU (u : UniverseState) (cid : string) (cs : StarSystem)
    (did : option string) (d : option StarSystem) (ph : TravelPhase)
    (prog dur timer : Q) : UniverseState :=
  {| currentSystemId := cid; currentSystem := cs; destinationId := did;
     destination := d; travelPhase := ph; travelProgress := prog;
     travelDuration := dur; travelTimer := timer;
     starMapOpen := starMapOpen u |}.

Definition setMotion (gs : GameState) (thr spd : Q) (warp : bool) : GameState :=
  {| throttle := thr; speed := spd; isWarp := warp;
     shieldsActive := shieldsActive gs; shieldStrength := shieldStrength gs;
     phaserCharge := phaserCharge gs; torpedoCount := torpedoCount gs;
     phaserFiring := phaserFiring gs; torpedoFiring := torpedoFiring gs |}.

Section Universe.
(** [Math.sqrt] and the [STAR_SYSTEMS] table. *)
Variable sqrt : Q -> Q.
Variable STAR_SYSTEMS : list StarSystem.

Definition getSystem (id : string) : option StarSystem :=
  find (fun s => String.eqb (sid s) id) STAR_SYSTEMS.

Definition getConnectedSystems (systemId : string) : list StarSystem :=
  match getSystem systemId with
  | None => []
  | Some sys => somes (map getSystem (connections sys))
  end.

Definition getMapDistance (a b : StarSystem) : Q :=
  let dx := mapX a - mapX b in
  let dy := mapY a - mapY b in
  sqrt (dx * dx + dy * dy).

(** [setDestination(state, systemId)]. *)
Definition setDestination (u : UniverseState) (systemId : string)
    : UniverseState * bool :=
  if String.eqb systemId (currentSystemId u) then (u, false) else
  match find (fun s => String.eqb (sid s) systemId)
             (getConnectedSystems (currentSystemId u)) with
  | None => (u, false)
  | Some target =>
      (setU u (currentSystemId u) (currentSystem u) (Some systemId)
            (Some target) (travelPhase u) (travelProgress u)
            (travelDuration u) (travelTimer u), true)
  end.

(** [clearDestination(state)]. *)
Definition clearDestination (u : UniverseState) : UniverseState :=
  setU u (currentSystemId u) (currentSystem u) None None (travelPhase u)
       (travelProgress u) (travelDuration u)
       (if travelPhase_eqb (travelPhase u) tidle then 0 else travelTimer u).

(** [initiateWarp(uState, gameState)]. *)
Definition initiateWarp (u : UniverseState) (gs : GameState)
    : UniverseState * bool :=
  match destination u with
  | None => (u, false)
  | Some d =>
      if negb (travelPhase_eqb (travelPhase u) tidle) then (u, false) else
      if qlt (throttle gs) (1 # 10) then (u, false) else
      let dist := getMapDistance (currentSystem u) d in
      (setU u (currentSystemId u) (currentSystem u) (destinationId u)
            (destination u) charging 0
            (js_max WARP_MIN_DURATION (dist * WARP_SPEED_FACTOR)) 0, true)
  end.

End Universe.

(** [arriveAtDestination(uState, gameState)]; the ship's position reset
    to the origin is left out with the transform. *)
Definition arriveAtDestination (u : UniverseState) (gs : GameState)
    : UniverseState * GameState * TravelResult :=
  match destination u with
  | None =>
      (setU u (currentSystemId u) (currentSystem u) (destinationId u)
            (destination u) tidle (travelProgress u) (travelDuration u)
            (travelTimer u), gs, arrived)
  | Some d =>
      let d' := {| sid := sid d; mapX := mapX d; mapY := mapY d;
                   connections := connections d; discovered := true |} in
      (setU u (sid d) d' None None tidle 0 (travelDuration u) 0,
       setMotion gs (3 # 10) (3 # 10) false, arrived)
  end.

(** [updateTravel(uState, gameState, delta)].  [timer / travelDuration]
    is [Q] division, where [x / 0] is [0] and not JavaScript's
    [Infinity]; the code divides only by a duration [initiateWarp] set,
    which is at least 3, and facts below that divide assume it positive. *)
Definition updateTravel (u : UniverseState) (gs : GameState) (delta : Q)
    : UniverseState * GameState * TravelResult :=
  match travelPhase u with
  | tidle => (u, gs, none)
  | ph =>
    let timer := travelTimer u + delta in
    let u1 := setU u (currentSystemId u) (currentSystem u) (destinationId u)
                   (destination u) ph (travelProgress u) (travelDuration u)
                   timer in
    match ph with
    | charging =>
        if qle WARP_CHARGE_TIME timer
        then (setU u1 (currentSystemId u) (currentSystem u) (destinationId u)
                   (destination u) warping (travelProgress u)
                   (travelDuration u) 0,
              setMotion gs (throttle gs) (speed gs) true, started_warp)
        else (u1, gs, none)
    | warping =>
        let prog := js_min 1 (timer / travelDuration u) in
        let gs1 := setMotion gs (throttle gs) (5 + prog * 3) true in
        if qle 1 prog
        then (setU u1 (currentSystemId u) (currentSystem u) (destinationId u)
                   (destination u) arriving prog (travelDuration u) 0, gs1, none)
        else (setU u1 (currentSystemId u) (currentSystem u) (destinationId u)
                   (destination u) warping prog (travelDuration u) timer, gs1, none)
    | _ =>
        let gs1 := setMotion gs (throttle gs)
                             (js_max (3 # 10) (1 - timer / ARRIVAL_TIME)) false in
        if qle ARRIVAL_TIME timer
        then arriveAtDestination u1 gs1
        else (u1, gs1, none)
    end
  end.

(** [cancelWarp(uState, gameState)]. *)
Definition cancelWarp (u : UniverseState) : UniverseState * bool :=
  match travelPhase u with
  | charging =>
      (setU u (currentSystemId u) (currentSystem u) (destinationId u)
            (destination u) tidle (travelProgress u) (travelDuration u) 0, true)
  | _ => (u, false)
  end.

End Travel.

(* ================================================================== *)
(** ** voice-command-executor.ts: the [GameState] effects *)

Module Voice.
Import Ship.

Inductive CommandAction :=
| SET_THROTTLE (speed : Q)
| ENGAGE_WARP | DISENGAGE_WARP | ALL_STOP | SHIELDS_UP | SHIELDS_DOWN
| FIRE_PHASERS | FIRE_TORPEDO | ENGAGE_ENEMY | RED_ALERT | START_MISSION
| DAMAGE_REPORT | STATUS_REPORT
| NAVIGATE_TO (target : string).

Definition withThrottle (gs : GameState) (t : Q) : GameState := set_throttle gs t.

Definition withShields (gs : GameState) (b : bool) : GameState :=
  {| throttle := throttle gs; speed := speed gs; isWarp := isWarp gs;
     shieldsActive := b; shieldStrength := shieldStrength gs;
     phaserCharge := phaserCharge gs; torpedoCount := torpedoCount gs;
     phaserFiring := phaserFiring gs; torpedoFiring := torpedoFiring gs |}.

Definition withFire (gs : GameState) (ph tp : bool) : GameState :=
  {| throttle := throttle gs; speed := speed gs; isWarp := isWarp gs;
     shieldsActive := shieldsActive gs; shieldStrength := shieldStrength gs;
     phaserCharge := phaserCharge gs; torpedoCount := torpedoCount gs;
     phaserFiring := ph; torpedoFiring := tp |}.

(** [executeVoiceCommand(action, ctx)]: the game state it leaves (the
    spoken reply and the callbacks into the UI are left out). *)
Definition executeVoiceCommand (action : CommandAction) (gs : GameState)
    : GameState :=
  match action with
  | SET_THROTTLE sp =>
      withThrottle gs (if Qeq_bool sp 0 then 0 else sp / 9)
  | ENGAGE_WARP =>
      let gs1 := if qlt (throttle gs) (1 # 10) then withThrottle gs 1 else gs in
      set_isWarp gs1 true
  | DISENGAGE_WARP => set_isWarp gs false
  | ALL_STOP => set_isWarp (withThrottle gs 0) false
  | SHIELDS_UP => withShields gs true
  | SHIELDS_DOWN => withShields gs false
  | FIRE_PHASERS => withFire gs true (torpedoFiring gs)
  | FIRE_TORPEDO =>
      if Z.ltb 0 (torpedoCount gs) then withFire gs (phaserFiring gs) true else gs
  | RED_ALERT => withShields gs true
  | ENGAGE_ENEMY =>
      let gs1 := withShields gs true in
      if qlt (throttle gs1) (1 # 2) then withThrottle gs1 1 else gs1
  | NAVIGATE_TO _ =>
      if qlt (throttle gs) (1 # 2) then withThrottle gs 1 else gs
  | START_MISSION | DAMAGE_REPORT | STATUS_REPORT => gs
  end.

End Voice.

(* ================================================================== *)
(** ** Facts about the number helpers *)

Module QFacts.

Lemma qlt_spec a b : qlt a b = true <-> a < b.
Proof.
  unfold qlt; rewrite negb_true_iff; split; intro H.
  - apply Qnot_le_lt; intro H'; apply Qle_bool_iff in H'; congruence.
  - destruct (Qle_bool b a) eqn:E; [|reflexivity].
    apply Qle_bool_iff in E; exfalso; now apply (Qlt_not_le _ _ H).
Qed.

Lemma qlt_false a b : qlt a b = false <-> b <= a.
Proof.
  unfold qlt; rewrite negb_false_iff; apply Qle_bool_iff.
Qed.

Lemma qle_spec a b : qle a b = true <-> a <= b.
Proof. apply Qle_bool_iff. Qed.

Lemma qle_false a b : qle a b = false <-> b < a.
Proof.
  unfold qle; split; intro H.
  - apply Qnot_le_lt; intro H'; apply Qle_bool_iff in H'; congruence.
  - destruct (Qle_bool a b) eqn:E; [|reflexivity].
    apply Qle_bool_iff in E; exfalso; now apply (Qlt_not_le _ _ H).
Qed.

Lemma js_max_Qmax a b : js_max a b == Qmax a b.
Proof.
  unfold js_max; destruct (Qle_bool a b) eqn:E.
  - apply Qle_bool_iff in E; symmetry; now apply Q.max_r.
  - assert (b < a) by (apply qle_false; exact E).
    symmetry; apply Q.max_l; now apply Qlt_le_weak.
Qed.

Lemma js_min_Qmin a b : js_min a b == Qmin a b.
Proof.
  unfold js_min; destruct (Qle_bool a b) eqn:E.
  - apply Qle_bool_iff in E; symmetry; now apply Q.min_l.
  - assert (b < a) by (apply qle_false; exact E).
    symmetry; apply Q.min_r; now apply Qlt_le_weak.
Qed.

#[global] Instance js_max_compat : Proper (Qeq ==> Qeq ==> Qeq) js_max.
Proof.
  intros a a' Ha b b' Hb; rewrite !js_max_Qmax, Ha, Hb; reflexivity.
Qed.

Lemma js_max_ge_r a b : b <= js_max a b.
Proof. rewrite js_max_Qmax; apply Q.le_max_r. Qed.

Lemma js_max_ge_l a b : a <= js_max a b.
Proof. rewrite js_max_Qmax; apply Q.le_max_l. Qed.

End QFacts.

Import QFacts.

(* ================================================================== *)
(** ** Combat claims *)

Module CombatFacts.
Import Combat.

(** Case split on the branches of [applyDamage]. *)
Ltac damage_cases H :=
  unfold applyDamage; rewrite H; cbn -[js_max qle qlt].

(** Closing a goal between numerals by evaluation. *)
Ltac qnum :=
  unfold SHIELD_ABSORPTION in *; vm_compute;
  first [reflexivity | discriminate | intro; discriminate].

(** C1: with shields up and strength positive, [applyDamage] absorbs
    [rawDamage * 0.7], drains half of it from the shields (floored at 0)
    and takes the rest from the hull (floored at 0); with strength 100 and
    10 raw damage, the shields end at 96.5 and the hull loses 3 (when it
    had at least 3 to lose). *)
Theorem applyDamage_shields_up (h : ShipHealth) (rawDamage : Q) :
  isDestroyed h = false -> shieldsUp h = true -> 0 < shieldStrength h ->
  let absorbed := rawDamage * SHIELD_ABSORPTION in
  shieldStrength (applyDamage h rawDamage)
    == Qmax 0 (shieldStrength h - absorbed * (1 # 2)) /\
  hull (applyDamage h rawDamage) == Qmax 0 (hull h - (rawDamage - absorbed)) /\
  (shieldStrength h == 100 -> rawDamage == 10 ->
     shieldStrength (applyDamage h rawDamage) == 193 # 2 /\
     hull (applyDamage h rawDamage) == Qmax 0 (hull h - 3) /\
     (3 <= hull h -> hull (applyDamage h rawDamage) == hull h - 3)).
Proof.
  intros Hd Hu Hs absorbed.
  assert (E : shieldsUp h && qlt 0 (shieldStrength h) = true)
    by (rewrite Hu; apply qlt_spec; exact Hs).
  unfold applyDamage; rewrite Hd, E; cbn.
  subst absorbed.
  split; [apply js_max_Qmax|].
  split; [apply js_max_Qmax|].
  intros H100 H10.
  rewrite H100, H10.
  split; [rewrite js_max_Qmax, Q.max_r; qnum|].
  assert (Hhull : js_max 0 (hull h - (10 - 10 * SHIELD_ABSORPTION))
                  == Qmax 0 (hull h - 3)).
  { rewrite js_max_Qmax; unfold SHIELD_ABSORPTION.
    setoid_replace (10 - 10 * (7 # 10)) with 3 by reflexivity; reflexivity. }
  split; [exact Hhull|].
  intro H3; rewrite Hhull; apply Q.max_r.
  apply (Qplus_le_l _ _ 3); ring_simplify; exact H3.
Qed.

Lemma applyDamage_shields_up_witness :
  isDestroyed (mkShipHealth 100 100 true 100 false 0) = false /\
  shieldsUp (mkShipHealth 100 100 true 100 false 0) = true /\
  0 < shieldStrength (mkShipHealth 100 100 true 100 false 0) /\
  shieldStrength (applyDamage (mkShipHealth 100 100 true 100 false 0) 10)
    == 193 # 2.
Proof.
  refine (conj eq_refl (conj eq_refl (conj _ _))); [qnum|].
  apply (applyDamage_shields_up (mkShipHealth 100 100 true 100 false 0) 10);
    [reflexivity | reflexivity | qnum | reflexivity | reflexivity].
Defined.

(** C2: on a destroyed ship, [applyDamage] returns the record unchanged,
    whatever the damage. *)
Theorem applyDamage_destroyed_noop (h : ShipHealth) (rawDamage : Q) :
  isDestroyed h = true -> applyDamage h rawDamage = h.
Proof. intro Hd; unfold applyDamage; now rewrite Hd. Qed.

Lemma applyDamage_destroyed_noop_witness :
  isDestroyed (mkShipHealth 0 100 true 50 true (1 # 2)) = true /\
  applyDamage (mkShipHealth 0 100 true 50 true (1 # 2)) (-1000)
    = mkShipHealth 0 100 true 50 true (1 # 2).
Proof.
  split; [reflexivity|].
  apply applyDamage_destroyed_noop; reflexivity.
Defined.

(** One combat step never changes an outcome that is already set. *)
Lemma combatStep_keeps_gameOver c op g :
  gameOver c = Some g -> gameOver (combatStep c op) = Some g.
Proof.
  intro H; destruct op as [d|d|dt]; cbn; [exact H|exact H|].
  unfold updateCombatTimers; cbn; now rewrite H.
Qed.

Lemma runCombat_keeps_gameOver ops : forall c g,
  gameOver c = Some g -> gameOver (runCombat c ops) = Some g.
Proof.
  induction ops as [|op ops IH]; intros c g H; [exact H|].
  cbn; apply IH, combatStep_keeps_gameOver, H.
Qed.

Lemma runCombat_app c ops1 ops2 :
  runCombat c (ops1 ++ ops2) = runCombat (runCombat c ops1) ops2.
Proof. unfold runCombat; apply fold_left_app. Qed.

(** The outcome only ever goes from [None] to [Some _] in a timer step. *)
Lemma combatStep_sets_gameOver c op g :
  gameOver c = None -> gameOver (combatStep c op) = Some g ->
  exists dt, op = Timers dt.
Proof.
  intros H0 H1; destruct op as [d|d|dt]; cbn in H1; try congruence.
  now exists dt.
Qed.

(** C3: along any sequence of [applyDamage] and [updateCombatTimers]
    steps, once [gameOver] holds an outcome, every later state holds the
    same outcome; so it leaves [null] at most once, to exactly one of
    [victory] or [defeat]. *)
Theorem gameOver_set_at_most_once (c : CombatState)
    (ops1 ops2 : list CombatOp) (g : GameOver) :
  gameOver (runCombat c ops1) = Some g ->
  gameOver (runCombat c (ops1 ++ ops2)) = Some g.
Proof.
  intro H; rewrite runCombat_app; now apply runCombat_keeps_gameOver.
Qed.

Lemma gameOver_set_at_most_once_witness :
  gameOver (runCombat createCombatState
              [DamageEnemy 200; Timers (1 # 60)]) = Some victory /\
  gameOver (runCombat createCombatState
              ([DamageEnemy 200; Timers (1 # 60)] ++
               [DamagePlayer 500; Timers (1 # 60)])) = Some victory.
Proof.
  split; [reflexivity|].
  apply gameOver_set_at_most_once; reflexivity.
Defined.

(** Both ships destroyed, no outcome yet. *)
Definition bothDestroyed : CombatState :=
  {| playerHealth := mkShipHealth 0 100 false 100 true 1;
     enemyHealth := mkShipHealth 0 100 false 100 true 1;
     gameOver := None |}.

(** C4 (as claimed, refuted): with both ships destroyed and no outcome
    yet, the win/lose check does not pick [defeat]. *)
Lemma both_destroyed_not_defeat :
  gameOver (updateCombatTimers bothDestroyed (1 # 60)) <> Some defeat.
Proof. cbn; discriminate. Qed.

Lemma decayFlash_isDestroyed h dt :
  isDestroyed (decayFlash h dt) = isDestroyed h.
Proof. unfold decayFlash; now destruct (qlt 0 (damageFlash h)). Qed.

(** C4 (amended): the first outcome is decided by the enemy's record
    first: [victory] whenever the enemy is destroyed (whatever the
    player's state), [defeat] exactly when the player alone is destroyed,
    and no outcome while neither ship is destroyed. *)
Theorem updateCombatTimers_outcome (c : CombatState) (delta : Q) :
  gameOver c = None ->
  (isDestroyed (enemyHealth c) = true ->
     gameOver (updateCombatTimers c delta) = Some victory) /\
  (gameOver (updateCombatTimers c delta) = Some defeat <->
     isDestroyed (enemyHealth c) = false /\ isDestroyed (playerHealth c) = true) /\
  (isDestroyed (enemyHealth c) = false -> isDestroyed (playerHealth c) = false ->
     gameOver (updateCombatTimers c delta) = None).
Proof.
  intro H; unfold updateCombatTimers; cbn; rewrite H, !decayFlash_isDestroyed.
  destruct (isDestroyed (enemyHealth c)), (isDestroyed (playerHealth c));
    repeat split; intros; try reflexivity; try discriminate;
    try (destruct H0; discriminate).
Qed.

Lemma updateCombatTimers_outcome_witness :
  gameOver bothDestroyed = None /\
  gameOver (updateCombatTimers bothDestroyed (1 # 60)) = Some victory.
Proof.
  split; [reflexivity|].
  apply (proj1 (updateCombatTimers_outcome bothDestroyed (1 # 60) eq_refl));
    reflexivity.
Defined.

(** C5 (as claimed, refuted): zero damage on a fresh ship still changes
    its [damageFlash] (from 0 to 1). *)
Lemma applyDamage_zero_changes_flash :
  ~ (damageFlash (applyDamage (createShipHealth 100) 0)
     == damageFlash (createShipHealth 100)).
Proof. cbn; qnum. Qed.

(** C5 (amended): zero damage changes nothing on a destroyed ship; on a
    live ship with positive hull it keeps hull, maxHull, shieldsUp,
    shieldStrength and isDestroyed, and sets [damageFlash] to 1. *)
Theorem applyDamage_zero (h : ShipHealth) :
  (isDestroyed h = true -> applyDamage h 0 = h) /\
  (isDestroyed h = false -> 0 < hull h ->
     hull (applyDamage h 0) == hull h /\
     maxHull (applyDamage h 0) = maxHull h /\
     shieldsUp (applyDamage h 0) = shieldsUp h /\
     shieldStrength (applyDamage h 0) == shieldStrength h /\
     isDestroyed (applyDamage h 0) = false /\
     damageFlash (applyDamage h 0) == 1).
Proof.
  split; [apply applyDamage_destroyed_noop|].
  intros Hd Hh.
  assert (Hhull : forall e, e == 0 -> js_max 0 (hull h - e) == hull h).
  { intros e He; rewrite He, js_max_Qmax, Q.max_r; [ring|].
    setoid_replace (hull h - 0) with (hull h) by ring; now apply Qlt_le_weak. }
  assert (Hq : forall e, e == 0 -> qle (js_max 0 (hull h - e)) 0 = false).
  { intros e He; apply qle_false; now rewrite Hhull. }
  unfold applyDamage; rewrite Hd.
  destruct (shieldsUp h && qlt 0 (shieldStrength h)) eqn:E; cbn.
  - apply andb_true_iff in E as [Hu Hs]; apply qlt_spec in Hs.
    assert (Hs' : js_max 0 (shieldStrength h - 0 * SHIELD_ABSORPTION * (1 # 2))
                  == shieldStrength h).
    { rewrite js_max_Qmax, Q.max_r; [ring|].
      setoid_replace (shieldStrength h - 0 * SHIELD_ABSORPTION * (1 # 2))
        with (shieldStrength h) by ring; now apply Qlt_le_weak. }
    assert (Hq' : qle (js_max 0 (shieldStrength h - 0 * SHIELD_ABSORPTION * (1 # 2))) 0
                  = false) by (apply qle_false; now rewrite Hs').
    rewrite Hq', Hq by ring.
    repeat split; try reflexivity; try exact Hd; try exact Hs'; apply Hhull; ring.
  - rewrite Hq by reflexivity.
    repeat split; try reflexivity; try exact Hd; apply Hhull; reflexivity.
Qed.

Lemma applyDamage_zero_witness :
  isDestroyed (createShipHealth 100) = false /\ 0 < hull (createShipHealth 100) /\
  damageFlash (applyDamage (createShipHealth 100) 0) == 1.
Proof.
  refine (conj eq_refl (conj _ _)); [qnum|].
  refine (proj2 (proj2 (proj2 (proj2 (proj2
    (proj2 (applyDamage_zero (createShipHealth 100)) eq_refl _))))));
  qnum.
Defined.

(** C10: with shields down, [applyDamage] sets the hull to
    [max(0, hull - rawDamage)] and never clamps it from above: negative
    damage strictly raises the hull, past [maxHull] when
    [hull - rawDamage] exceeds it. *)
Theorem applyDamage_no_upper_clamp (h : ShipHealth) (rawDamage : Q) :
  isDestroyed h = false ->
  (shieldsUp h = false \/ shieldStrength h == 0) ->
  hull (applyDamage h rawDamage) == Qmax 0 (hull h - rawDamage) /\
  (rawDamage < 0 -> hull h < hull (applyDamage h rawDamage)) /\
  (maxHull h < hull h - rawDamage ->
     maxHull h < hull (applyDamage h rawDamage)).
Proof.
  intros Hd Hdown.
  assert (E : shieldsUp h && qlt 0 (shieldStrength h) = false).
  { destruct Hdown as [Hu|Hz]; [now rewrite Hu|].
    apply andb_false_iff; right; apply qlt_false; rewrite Hz; apply Qle_refl. }
  unfold applyDamage; rewrite Hd, E; cbn.
  split; [apply js_max_Qmax|]; split.
  - intro Hneg; eapply Qlt_le_trans; [|apply js_max_ge_r].
    apply (Qplus_lt_l _ _ rawDamage); ring_simplify.
    rewrite <- (Qplus_0_r (hull h)) at 2; now apply Qplus_lt_r.
  - intro Hm; eapply Qlt_le_trans; [exact Hm|apply js_max_ge_r].
Qed.

Lemma applyDamage_no_upper_clamp_witness :
  isDestroyed (createShipHealth 100) = false /\
  maxHull (createShipHealth 100) < hull (applyDamage (createShipHealth 100) (-10)).
Proof.
  split; [reflexivity|].
  apply (proj2 (proj2 (applyDamage_no_upper_clamp (createShipHealth 100) (-10)
                         eq_refl (or_introl eq_refl)))).
  qnum.
Defined.

End CombatFacts.

(* ================================================================== *)
(** ** Flight and weapon claims *)

Module ShipFacts.
Import Input Ship Weapons.

(** Split every [let '(_, _) := e in _] of a goal on [e]. *)
Ltac split_lets :=
  repeat match goal with
  | |- context [let '(_, _) := ?e in _] =>
      let p := fresh "p" in let E := fresh "E" in
      destruct e as [? ?] eqn:E
  end.

Lemma existsb_filter_other (code k : string) (l : list string) :
  code <> k ->
  existsb (String.eqb k) (filter (fun c => negb (String.eqb code c)) l)
  = existsb (String.eqb k) l.
Proof.
  intro Hne; induction l as [|c l IH]; [reflexivity|]; cbn.
  destruct (String.eqb_spec code c) as [->|Hc]; cbn.
  - rewrite IH; destruct (String.eqb_spec k c) as [->|]; [congruence|reflexivity].
  - now rewrite IH.
Qed.

(** Consuming one key leaves the pending flag of any other key. *)
Lemma wasJustPressed_other (i : InputManager) (code k : string) :
  code <> k ->
  existsb (String.eqb k) (justPressed (snd (wasJustPressed i code)))
  = existsb (String.eqb k) (justPressed i).
Proof.
  intro Hne; unfold wasJustPressed.
  destruct (existsb (String.eqb code) (justPressed i)); cbn; [|reflexivity].
  now apply existsb_filter_other.
Qed.

Lemma digitKey_not_caps d : digitKey d <> "CapsLock"%string.
Proof. unfold digitKey; cbn; discriminate. Qed.

(** The digit loop touches only the throttle. *)
Lemma throttleKeys_frame n : forall d s i,
  isWarp (fst (throttleKeys n d s i)) = isWarp s /\
  torpedoCount (fst (throttleKeys n d s i)) = torpedoCount s /\
  existsb (String.eqb "CapsLock") (justPressed (snd (throttleKeys n d s i)))
  = existsb (String.eqb "CapsLock") (justPressed i).
Proof.
  induction n as [|n IH]; intros d s i; [repeat split|].
  cbn [throttleKeys].
  destruct (wasJustPressed i (digitKey d)) as [pressed i1] eqn:E.
  destruct (IH (S d) (if pressed then set_throttle s (if Nat.eqb d 0 then 0
                       else inject_Z (Z.of_nat d) / 9) else s) i1)
    as (H1 & H2 & H3).
  rewrite H1, H2, H3.
  assert (Hi : existsb (String.eqb "CapsLock") (justPressed i1)
               = existsb (String.eqb "CapsLock") (justPressed i)).
  { change i1 with (snd (pressed, i1)); rewrite <- E.
    apply wasJustPressed_other, digitKey_not_caps. }
  rewrite Hi; destruct pressed; repeat split.
Qed.

Lemma wasJustPressed_fst (i : InputManager) (code : string) :
  fst (wasJustPressed i code) = existsb (String.eqb code) (justPressed i).
Proof. unfold wasJustPressed; now destruct existsb. Qed.

(** The warp block: after it, warp implies throttle above 0.05, and warp
    is only switched on by the toggle with throttle above 0.1. *)
Lemma warpControl_spec (s : GameState) (i : InputManager) :
  let s' := fst (warpControl s i) in
  throttle s' = throttle s /\
  torpedoCount s' = torpedoCount s /\
  (isWarp s' = true -> 1 # 20 < throttle s') /\
  (isWarp s = false -> isWarp s' = true ->
     fst (wasJustPressed i "CapsLock") = true /\ 1 # 10 < throttle s).
Proof.
  unfold warpControl.
  destruct (wasJustPressed i "CapsLock") as [caps i1]; cbn.
  set (s1 := if caps then _ else s).
  assert (T1 : throttle s1 = throttle s /\ torpedoCount s1 = torpedoCount s)
    by (subst s1; destruct caps; [destruct (_ && _)|]; split; reflexivity).
  assert (W1 : isWarp s = false -> isWarp s1 = true ->
               caps = true /\ 1 # 10 < throttle s).
  { subst s1; intros Hw; destruct caps; [|congruence].
    rewrite Hw; cbn; destruct (qlt (1 # 10) (throttle s)) eqn:Q; cbn;
      [|discriminate]; intros _; split; [reflexivity|now apply qlt_spec]. }
  destruct T1 as [T1a T1b].
  destruct (isWarp s1 && qle (throttle s1) (1 # 20)) eqn:E; cbn.
  - split; [exact T1a|split; [exact T1b|split; [discriminate|]]].
    intros _ H; discriminate.
  - split; [exact T1a|split; [exact T1b|split]].
    + intro Hw; rewrite Hw in E; cbn in E; now apply qle_false.
    + exact W1.
Qed.

(** The fields of [updateShip]'s result that come from the digit loop and
    the warp block. *)
Lemma updateShip_fields (s : GameState) (i : InputManager) (delta : Q) :
  let s2 := fst (warpControl (fst (throttleKeys 10 0 s i))
                             (snd (throttleKeys 10 0 s i))) in
  let i2 := snd (warpControl (fst (throttleKeys 10 0 s i))
                             (snd (throttleKeys 10 0 s i))) in
  throttle (fst (updateShip s i delta)) = throttle s2 /\
  isWarp (fst (updateShip s i delta)) = isWarp s2 /\
  torpedoCount (fst (updateShip s i delta)) = torpedoCount s2 /\
  torpedoFiring (fst (updateShip s i delta))
    = fst (wasJustPressed i2 "KeyT") && Z.ltb 0 (torpedoCount s2).
Proof.
  unfold updateShip.
  destruct (throttleKeys 10 0 s i) as [s1 i1]; cbn [fst snd].
  destruct (warpControl s1 i1) as [s2 i2]; cbn [fst snd].
  destruct (wasJustPressed i2 "KeyT") as [t i3]; cbn [fst snd].
  destruct (wasJustPressed i3 "KeyX") as [x i4].
  cbn -[js_max js_min qle qlt]; split_lets; cbn.
  repeat split.
Qed.

(** C6: after every [updateShip], warp implies throttle above 0.05; so a
    throttle at or below 0.05 leaves warp off with no toggle, and warp is
    only switched on from off by a CapsLock press with throttle above 0.1. *)
Theorem updateShip_warp_threshold (s : GameState) (i : InputManager)
    (delta : Q) :
  (isWarp (fst (updateShip s i delta)) = true ->
     1 # 20 < throttle (fst (updateShip s i delta))) /\
  (throttle (fst (updateShip s i delta)) <= 1 # 20 ->
     isWarp (fst (updateShip s i delta)) = false) /\
  (isWarp s = false -> isWarp (fst (updateShip s i delta)) = true ->
     existsb (String.eqb "CapsLock") (justPressed i) = true /\
     1 # 10 < throttle (fst (updateShip s i delta))).
Proof.
  destruct (updateShip_fields s i delta) as (Ht & Hw & _ & _).
  destruct (throttleKeys_frame 10 0 s i) as (Kw & _ & Kc).
  destruct (warpControl_spec (fst (throttleKeys 10 0 s i))
                             (snd (throttleKeys 10 0 s i)))
    as (Wt & _ & Wok & Won).
  rewrite Ht, Hw.
  split; [exact Wok|split].
  - intro Hle; apply not_true_is_false; intro Hw'.
    exact (Qlt_not_le _ _ (Wok Hw') Hle).
  - intros H0 H1; rewrite <- Kw in H0.
    destruct (Won H0 H1) as [Hc Hth].
    rewrite wasJustPressed_fst, Kc in Hc; split; [exact Hc|].
    now rewrite Wt.
Qed.

(** A state in warp whose throttle has decayed to 0.04. *)
Definition warpLowThrottle : GameState :=
  {| throttle := 1 # 25; speed := 1; isWarp := true;
     shieldsActive := false; shieldStrength := 100;
     phaserCharge := 100; torpedoCount := 64;
     phaserFiring := false; torpedoFiring := false |}.

Lemma updateShip_warp_threshold_witness :
  throttle (fst (updateShip warpLowThrottle (mkInput [] []) (1 # 60))) <= 1 # 20 /\
  isWarp (fst (updateShip warpLowThrottle (mkInput [] []) (1 # 60))) = false.
Proof.
  assert (H : throttle (fst (updateShip warpLowThrottle (mkInput [] []) (1 # 60)))
              <= 1 # 20) by (vm_compute; discriminate).
  split; [exact H|].
  exact (proj1 (proj2 (updateShip_warp_threshold warpLowThrottle (mkInput [] [])
                         (1 # 60))) H).
Defined.

Lemma fireTorpedo_spec (torps : list PhotonTorpedo) (gs : GameState) :
  (torpedoCount (snd (fireTorpedo torps gs)) = torpedoCount gs /\
   fst (fireTorpedo torps gs) = torps) \/
  (torpedoCount (snd (fireTorpedo torps gs)) = (torpedoCount gs - 1)%Z /\
   (0 < torpedoCount gs)%Z /\
   fst (fireTorpedo torps gs) = torps ++ [createTorpedoMesh]).
Proof.
  unfold fireTorpedo; destruct (torpedoFiring gs && Z.ltb 0 (torpedoCount gs))
    eqn:E; cbn; [right|left; auto].
  apply andb_true_iff in E as [_ E]; apply Z.ltb_lt in E; auto.
Qed.

Lemma fireTorpedo_no_fire (torps : list PhotonTorpedo) (gs : GameState) :
  torpedoFiring gs = false \/ torpedoCount gs = 0%Z ->
  fireTorpedo torps gs = (torps, gs).
Proof.
  unfold fireTorpedo; intros [H|H]; rewrite H; [reflexivity|].
  now rewrite andb_false_r.
Qed.

(** The phaser part of [updateWeapons] leaves ammunition and the torpedo
    intent alone. *)
Lemma updateWeapons_torpedo (ws : WeaponSystemState) (gs : GameState)
    (delta : Q) :
  exists gs1,
    torpedoCount gs1 = torpedoCount gs /\ torpedoFiring gs1 = torpedoFiring gs /\
    torpedoes (fst (updateWeapons ws gs delta))
      = ageTorpedoes (fst (fireTorpedo (torpedoes ws) gs1)) delta /\
    snd (updateWeapons ws gs delta) = snd (fireTorpedo (torpedoes ws) gs1).
Proof.
  unfold updateWeapons.
  set (gs1 := if phaserFiring gs then _ else gs).
  exists gs1.
  assert (H : torpedoCount gs1 = torpedoCount gs /\
              torpedoFiring gs1 = torpedoFiring gs)
    by (subst gs1; destruct (phaserFiring gs); split; reflexivity).
  destruct H as [H1 H2]; split; [exact H1|split; [exact H2|]].
  split_lets; cbn; split; reflexivity.
Qed.

(** C7: [updateShip] never changes [torpedoCount]; [updateWeapons] lowers
    it by one exactly when it launches a torpedo and otherwise keeps it
    (and the torpedo list gains nothing); at [torpedoCount = 0] a [T]
    press yields no fire intent, no launch and no change of ammunition,
    and both updates are total functions (no error). *)
Theorem torpedoCount_nonincreasing (s : GameState) (i : InputManager)
    (delta : Q) (ws : WeaponSystemState) (gs : GameState) (dw : Q) :
  torpedoCount (fst (updateShip s i delta)) = torpedoCount s /\
  (Z.le (torpedoCount (snd (updateWeapons ws gs dw))) (torpedoCount gs) /\
   ((torpedoCount (snd (updateWeapons ws gs dw)) = torpedoCount gs /\
     torpedoes (fst (updateWeapons ws gs dw))
       = ageTorpedoes (torpedoes ws) dw) \/
    (torpedoCount (snd (updateWeapons ws gs dw)) = (torpedoCount gs - 1)%Z /\
     torpedoes (fst (updateWeapons ws gs dw))
       = ageTorpedoes (torpedoes ws ++ [createTorpedoMesh]) dw))) /\
  (torpedoCount s = 0%Z ->
     torpedoFiring (fst (updateShip s i delta)) = false /\
     torpedoCount (snd (updateWeapons ws (fst (updateShip s i delta)) dw)) = 0%Z /\
     torpedoes (fst (updateWeapons ws (fst (updateShip s i delta)) dw))
       = ageTorpedoes (torpedoes ws) dw).
Proof.
  destruct (updateShip_fields s i delta) as (_ & _ & Hc & Hf).
  destruct (throttleKeys_frame 10 0 s i) as (_ & Kc & _).
  destruct (warpControl_spec (fst (throttleKeys 10 0 s i))
                             (snd (throttleKeys 10 0 s i))) as (_ & Wc & _).
  assert (Hship : torpedoCount (fst (updateShip s i delta)) = torpedoCount s)
    by (rewrite Hc, Wc, Kc; reflexivity).
  split; [exact Hship|split].
  - destruct (updateWeapons_torpedo ws gs dw) as (gs1 & G1 & _ & Gt & Gs).
    rewrite Gt, Gs, <- G1.
    destruct (fireTorpedo_spec (torpedoes ws) gs1) as [[A B]|(A & B & C)];
      rewrite A; [rewrite B|rewrite C]; split; [lia| |lia|]; auto.
  - intro H0.
    assert (Hf0 : torpedoFiring (fst (updateShip s i delta)) = false)
      by (rewrite Hf, Wc, Kc, H0, andb_false_r; reflexivity).
    split; [exact Hf0|].
    destruct (updateWeapons_torpedo ws (fst (updateShip s i delta)) dw)
      as (gs1 & G1 & G2 & Gt & Gs).
    rewrite fireTorpedo_no_fire in Gt, Gs by (left; congruence).
    rewrite Gs, Gt; cbn; split; [congruence|reflexivity].
Qed.

(** A ship with empty magazine, with T pressed this frame. *)
Definition emptyMagazine : GameState :=
  {| throttle := 0; speed := 0; isWarp := false;
     shieldsActive := false; shieldStrength := 100;
     phaserCharge := 100; torpedoCount := 0;
     phaserFiring := false; torpedoFiring := false |}.

Lemma torpedoCount_nonincreasing_witness :
  torpedoCount emptyMagazine = 0%Z /\
  torpedoFiring (fst (updateShip emptyMagazine
                        (mkInput ["KeyT"%string] ["KeyT"%string]) (1 # 60)))
    = false.
Proof.
  split; [reflexivity|].
  exact (proj1 (proj2 (proj2 (torpedoCount_nonincreasing emptyMagazine
           (mkInput ["KeyT"%string] ["KeyT"%string]) (1 # 60)
           createWeaponSystem emptyMagazine (1 # 60))) eq_refl)).
Defined.

End ShipFacts.

(* ================================================================== *)
(** ** Phaser hit claim *)

Module PhaserFacts.
Import Combat Vec Phaser.

Lemma div30_antitone (m1 m2 : Q) : 1 <= m1 -> m1 <= m2 -> 30 / m2 <= 30 / m1.
Proof.
  intros H1 H12.
  assert (P1 : 0 < m1) by (eapply Qlt_le_trans; [|exact H1]; reflexivity).
  assert (P2 : 0 < m2) by (eapply Qlt_le_trans; [exact P1|exact H12]).
  apply Qle_shift_div_r; [exact P2|].
  assert (E : 30 / m1 * m1 == 30)
    by (field; intro Z0; rewrite Z0 in P1; discriminate).
  assert (P3 : 0 < 30 / m1) by (apply Qlt_shift_div_l; [exact P1|]; ring_simplify; reflexivity).
  apply (Qle_trans _ (30 / m1 * m1)); [rewrite E; apply Qle_refl|].
  apply Qmult_le_l; [exact P3|exact H12].
Qed.

(** The minimum alignment never grows as the target comes closer. *)
Lemma minDotAt_monotone (d1 d2 : Q) : d1 <= d2 -> minDotAt d1 <= minDotAt d2.
Proof.
  intro H; unfold minDotAt; rewrite !js_max_Qmax.
  apply Q.max_le_compat_l.
  apply Qplus_le_r, Qopp_le_compat, div30_antitone.
  - apply Q.le_max_r.
  - apply Q.max_le_compat_r, H.
Qed.

(** C9: [checkPhaserHits] damages the enemy exactly when the phaser
    intent is on, the enemy is alive, the distance is at most 200 and the
    forward axis dotted with the direction to the enemy exceeds
    [max(0.85, 1 - 30 / max(dist, 1))]; that threshold does not grow as
    the distance shrinks, and a hit applies [PHASER_DPS * delta]. *)
Theorem checkPhaserHits_spec (sqrt : Q -> Q) (c : CombatState)
    (ps : PlayerView) (enemyPosition : Vector3) (delta : Q) :
  let toEnemy := vsub enemyPosition (pposition ps) in
  let dist := vlength sqrt toEnemy in
  let dot := vdot (forwardOf (pquaternion ps)) (normalize sqrt toEnemy) in
  (snd (checkPhaserHits sqrt c ps enemyPosition delta) = true <->
     pphaserFiring ps = true /\ isDestroyed (enemyHealth c) = false /\
     dist <= 200 /\ Qmax (85 # 100) (1 - 30 / Qmax dist 1) < dot) /\
  fst (checkPhaserHits sqrt c ps enemyPosition delta) =
    (if snd (checkPhaserHits sqrt c ps enemyPosition delta)
     then setEnemyHealth c (applyDamage (enemyHealth c) (PHASER_DPS * delta))
     else c) /\
  (forall d1 d2, d1 <= d2 -> minDotAt d1 <= minDotAt d2).
Proof.
  intros toEnemy dist dot.
  assert (Hmin : minDotAt dist == Qmax (85 # 100) (1 - 30 / Qmax dist 1))
    by (unfold minDotAt; now rewrite !js_max_Qmax).
  split; [|split; [|exact minDotAt_monotone]].
  - unfold checkPhaserHits; fold toEnemy dist dot.
    destruct (pphaserFiring ps) eqn:F; cbn;
      [|split; [discriminate|intros (? & _); discriminate]].
    destruct (isDestroyed (enemyHealth c)) eqn:D; cbn;
      [split; [discriminate|intros (_ & ? & _); discriminate]|].
    destruct (qlt 200 dist) eqn:R; cbn.
    + apply qlt_spec in R; split; [discriminate|].
      intros (_ & _ & Hd & _); exfalso; exact (Qlt_not_le _ _ R Hd).
    + apply qlt_false in R.
      destruct (qlt (minDotAt dist) dot) eqn:M; cbn.
      * apply qlt_spec in M; rewrite Hmin in M; tauto.
      * apply qlt_false in M; rewrite Hmin in M; split; [discriminate|].
        intros (_ & _ & _ & Hlt); exfalso; exact (Qlt_not_le _ _ Hlt M).
  - unfold checkPhaserHits; fold toEnemy dist dot.
    destruct (negb (pphaserFiring ps) || isDestroyed (enemyHealth c)); [reflexivity|].
    destruct (qlt 200 dist); [reflexivity|].
    fold dot; destruct (qlt (minDotAt dist) dot); reflexivity.
Qed.

(** Straight ahead at 10 units the beam hits and the enemy loses
    [8 * delta] hull; 90 degrees off it misses. *)
Example phaser_hits_ahead :
  snd (checkPhaserHits sqrtQ createCombatState
         (mkPlayerView (mkVec 0 0 0) (mkQuat 0 0 0 1) true)
         (mkVec 0 0 (-10)) (1 # 2)) = true /\
  hull (enemyHealth (fst (checkPhaserHits sqrtQ createCombatState
         (mkPlayerView (mkVec 0 0 0) (mkQuat 0 0 0 1) true)
         (mkVec 0 0 (-10)) (1 # 2)))) == 96 /\
  snd (checkPhaserHits sqrtQ createCombatState
         (mkPlayerView (mkVec 0 0 0) (mkQuat 0 0 0 1) true)
         (mkVec 10 0 0) (1 # 2)) = false.
Proof. vm_compute; repeat split; reflexivity. Qed.

End PhaserFacts.

(* ================================================================== *)
(** ** Enemy behaviour claim *)

Module EnemyFacts.
Import Combat Vec Enemy.

Definition qsum (l : list Q) : Q := fold_right Qplus 0 l.

Lemma qsum_nonneg (l : list Q) : Forall (fun d => 0 <= d) l -> 0 <= qsum l.
Proof.
  induction 1 as [|d l Hd _ IH]; cbn; [apply Qle_refl|].
  apply (Qle_trans _ (d + 0)); [rewrite Qplus_0_r; exact Hd|].
  apply Qplus_le_r; exact IH.
Qed.

Section Behaviour.
Variables (sqrt cos sin : Q -> Q).
Variable lookSlerp : Quaternion -> Vector3 -> Vector3 -> Q -> Quaternion.

Let step := updateEnemyAI sqrt cos sin lookSlerp.
Let run := runEnemyAI sqrt cos sin lookSlerp.

(** The idle step with the player in range. *)
Lemma updateEnemyAI_idle_detect e p c f :
  behavior e = idle -> isDestroyed (enemyHealth c) = false ->
  vlength sqrt (vsub p (position e)) < DETECTION_RANGE ->
  behavior (fst (step e p c f)) = alert /\
  alertTimer (fst (step e p c f)) = 2 /\
  snd (step e p c f) = c.
Proof.
  intros Hb Hd Hr; apply qlt_spec in Hr.
  subst step; unfold updateEnemyAI, behaviorStep; rewrite Hd, Hb, Hr.
  cbn; auto.
Qed.

(** The alert step: the timer runs down by [delta], shields go up, and
    the behaviour turns to [attack] once the timer is at or below 0. *)
Lemma updateEnemyAI_alert e p c f :
  behavior e = alert -> isDestroyed (enemyHealth c) = false ->
  behavior (fst (step e p c f))
    = (if qle (alertTimer e - fdelta f) 0 then attack else alert) /\
  alertTimer (fst (step e p c f)) = alertTimer e - fdelta f /\
  isDestroyed (enemyHealth (snd (step e p c f))) = false.
Proof.
  intros Hb Hd.
  subst step; unfold updateEnemyAI, behaviorStep; rewrite Hd, Hb.
  cbn; auto.
Qed.

Lemma run_cons e p c f fs :
  run e p c (f :: fs) = run (fst (step e p c f)) p (snd (step e p c f)) fs.
Proof. subst run step; cbn; now destruct updateEnemyAI. Qed.

Lemma run_nil e p c : run e p c [] = (e, c).
Proof. reflexivity. Qed.

Lemma run_app e p c fs fs' :
  run e p c (fs ++ fs') =
  run (fst (run e p c fs)) p (snd (run e p c fs)) fs'.
Proof.
  revert e c; induction fs as [|f fs IH]; intros e c; [reflexivity|].
  cbn [app]; rewrite !run_cons; apply IH.
Qed.

(** Frames that leave the timer positive keep the enemy in [alert]. *)
Lemma run_alert p fs : forall e c,
  behavior e = alert -> isDestroyed (enemyHealth c) = false ->
  Forall (fun d => 0 <= d) (map fdelta fs) ->
  qsum (map fdelta fs) < alertTimer e ->
  behavior (fst (run e p c fs)) = alert /\
  isDestroyed (enemyHealth (snd (run e p c fs))) = false /\
  alertTimer (fst (run e p c fs)) == alertTimer e - qsum (map fdelta fs).
Proof.
  induction fs as [|f fs IH]; intros e c Hb Hd Hn Hs.
  - cbn; repeat split; auto; ring.
  - rewrite run_cons.
    inversion Hn as [|? ? Hf Hn']; subst.
    cbn [map qsum fold_right] in Hs.
    destruct (updateEnemyAI_alert e p c f Hb Hd) as (B & T & D).
    assert (Hpos : fdelta f < alertTimer e).
    { eapply Qle_lt_trans; [|exact Hs].
      rewrite <- (Qplus_0_r (fdelta f)) at 1.
      apply Qplus_le_r, qsum_nonneg, Hn'. }
    assert (Q0 : qle (alertTimer e - fdelta f) 0 = false).
    { apply qle_false; apply (Qplus_lt_l _ _ (fdelta f)); ring_simplify; exact Hpos. }
    rewrite Q0 in B.
    destruct (IH _ _ B D Hn') as (B' & D' & T').
    { rewrite T; apply (Qplus_lt_l _ _ (fdelta f)); ring_simplify.
      rewrite Qplus_comm; exact Hs. }
    split; [exact B'|split; [exact D'|]].
    rewrite T', T; unfold qsum; cbn [map fold_right]; ring.
Qed.

(** C8: an idle enemy, alive, with the player within detection range
    goes to [alert] in one step with the alert timer set to 2 seconds;
    with the player held there, it stays in [alert] while the frame times
    add up to less than 2 seconds, and is in [attack] after the frame that
    brings them to 2 seconds or more. *)
Theorem enemy_idle_alert_attack (e : EnemyShip) (p : Vector3)
    (c : CombatState) (f0 : Frame) (fs : list Frame) (fl : Frame) :
  behavior e = idle -> isDestroyed (enemyHealth c) = false ->
  vlength sqrt (vsub p (position e)) < DETECTION_RANGE ->
  Forall (fun d => 0 <= d) (map fdelta fs) ->
  qsum (map fdelta fs) < 2 ->
  2 <= qsum (map fdelta fs) + fdelta fl ->
  behavior (fst (step e p c f0)) = alert /\
  alertTimer (fst (step e p c f0)) = 2 /\
  behavior (fst (run e p c (f0 :: fs))) = alert /\
  behavior (fst (run e p c (f0 :: fs ++ [fl]))) = attack.
Proof.
  intros Hb Hd Hr Hn Hlt Hge.
  destruct (updateEnemyAI_idle_detect e p c f0 Hb Hd Hr) as (B1 & T1 & C1).
  assert (Hs : qsum (map fdelta fs) < alertTimer (fst (step e p c f0)))
    by (rewrite T1; exact Hlt).
  assert (D1 : isDestroyed (enemyHealth (snd (step e p c f0))) = false)
    by (rewrite C1; exact Hd).
  destruct (run_alert p fs _ _ B1 D1 Hn Hs) as (B2 & D2 & T2).
  split; [exact B1|split; [exact T1|split]].
  - rewrite run_cons; exact B2.
  - rewrite run_cons, run_app, run_cons.
    destruct (updateEnemyAI_alert _ p _ fl B2 D2) as (B3 & _ & _).
    rewrite run_nil; cbn [fst]; rewrite B3.
    assert (Q1 : qle (alertTimer (fst (run (fst (step e p c f0)) p
                                           (snd (step e p c f0)) fs))
                      - fdelta fl) 0 = true).
    { apply qle_spec; rewrite T2, T1.
      apply (Qplus_le_l _ _ (qsum (map fdelta fs) + fdelta fl)); ring_simplify.
      exact Hge. }
    rewrite Q1; reflexivity.
Qed.

End Behaviour.

(** A concrete host for evaluating: exact square roots, a fixed orbit
    point and no turning. *)
Definition cos0 (_ : Q) : Q := 1.
Definition sin0 (_ : Q) : Q := 0.
Definition noTurn (q : Quaternion) (_ _ : Vector3) (_ : Q) : Quaternion := q.

Definition idleEnemy : EnemyShip :=
  mkEnemy (mkVec 0 0 0) (mkQuat 0 0 0 1) idle 0 0 0 false false 0 0
          (mkVec 0 0 0) 0.

Lemma enemy_idle_alert_attack_witness :
  vlength sqrtQ (vsub (mkVec 0 0 (-100)) (position idleEnemy)) < DETECTION_RANGE /\
  behavior (fst (runEnemyAI sqrtQ cos0 sin0 noTurn idleEnemy (mkVec 0 0 (-100))
                  createCombatState
                  (mkFrame (1 # 60) 0 0 ::
                   [mkFrame 1 0 0; mkFrame (1 # 2) 0 0] ++ [mkFrame (1 # 2) 0 0])))
    = attack.
Proof.
  assert (Hr : vlength sqrtQ (vsub (mkVec 0 0 (-100)) (position idleEnemy))
               < DETECTION_RANGE) by (vm_compute; reflexivity).
  split; [exact Hr|].
  refine (proj2 (proj2 (proj2 (enemy_idle_alert_attack sqrtQ cos0 sin0 noTurn
            idleEnemy (mkVec 0 0 (-100)) createCombatState (mkFrame (1 # 60) 0 0)
            [mkFrame 1 0 0; mkFrame (1 # 2) 0 0] (mkFrame (1 # 2) 0 0)
            eq_refl eq_refl Hr _ _ _)))).
  - repeat constructor; vm_compute; discriminate.
  - vm_compute; reflexivity.
  - vm_compute; discriminate.
Defined.
End EnemyFacts.

(* ================================================================== *)
(** ** More of combat-system.ts *)

Module CombatMore.
Import Combat Vec TorpedoHits.

(** Unfold [applyDamage] on a live ship down to its hull computation. *)
Ltac live_damage Hd :=
  unfold applyDamage; rewrite Hd;
  destruct (if _ && _ then _ else _) as [[? ?] ?]; cbn.

(** After a hit on a live ship the hull is never negative, and the ship is
    marked destroyed exactly when its hull is 0. *)
Theorem applyDamage_live_hull (h : ShipHealth) (rawDamage : Q) :
  isDestroyed h = false ->
  0 <= hull (applyDamage h rawDamage) /\
  (isDestroyed (applyDamage h rawDamage) = true <->
   hull (applyDamage h rawDamage) == 0).
Proof.
  intro Hd; live_damage Hd.
  set (m := js_max 0 _).
  assert (H0 : 0 <= m) by apply js_max_ge_l.
  split; [exact H0|].
  destruct (qle m 0) eqn:E.
  - apply qle_spec in E; split; [intros _; now apply Qle_antisym|reflexivity].
  - apply qle_false in E; split; [discriminate|].
    intro Z0; rewrite Z0 in E; discriminate.
Qed.

Lemma applyDamage_live_hull_witness :
  isDestroyed (createShipHealth 100) = false /\
  (isDestroyed (applyDamage (createShipHealth 100) 150) = true <->
   hull (applyDamage (createShipHealth 100) 150) == 0).
Proof.
  split; [reflexivity|].
  exact (proj2 (applyDamage_live_hull (createShipHealth 100) 150 eq_refl)).
Defined.

(** A hit that meets raised shields leaves their strength non-negative,
    and the shields stay up exactly when some strength is left. *)
Theorem applyDamage_shield_state (h : ShipHealth) (rawDamage : Q) :
  isDestroyed h = false -> shieldsUp h = true -> 0 < shieldStrength h ->
  0 <= shieldStrength (applyDamage h rawDamage) /\
  (shieldsUp (applyDamage h rawDamage) = true <->
   0 < shieldStrength (applyDamage h rawDamage)).
Proof.
  intros Hd Hu Hs.
  assert (E : shieldsUp h && qlt 0 (shieldStrength h) = true)
    by (rewrite Hu; apply qlt_spec; exact Hs).
  unfold applyDamage; rewrite Hd, E; cbn.
  set (m := js_max 0 _).
  assert (H0 : 0 <= m) by apply js_max_ge_l.
  split; [exact H0|].
  destruct (qle m 0) eqn:Q.
  - apply qle_spec in Q; split; [discriminate|].
    intro Hl; exfalso; exact (Qlt_not_le _ _ Hl Q).
  - apply qle_false in Q; rewrite Hu; split; auto.
Qed.

Lemma applyDamage_shield_state_witness :
  isDestroyed (mkShipHealth 100 100 true 5 false 0) = false /\
  shieldsUp (applyDamage (mkShipHealth 100 100 true 5 false 0) 20) = false.
Proof.
  split; [reflexivity|].
  destruct (applyDamage_shield_state (mkShipHealth 100 100 true 5 false 0) 20
              eq_refl eq_refl (eq_refl : Qlt 0 5)) as [_ [H _]].
  destruct (shieldsUp (applyDamage (mkShipHealth 100 100 true 5 false 0) 20)) eqn:E;
    [|reflexivity].
  exfalso; pose proof (H eq_refl) as L; vm_compute in L; discriminate.
Defined.

Lemma applyDamage_on_destroyed h d : isDestroyed h = true -> applyDamage h d = h.
Proof. intro H; unfold applyDamage; now rewrite H. Qed.

(** The fields a hit can change, frozen on a destroyed record. *)
Definition frozen (h h' : ShipHealth) : Prop :=
  isDestroyed h' = true /\ hull h' = hull h /\ maxHull h' = maxHull h /\
  shieldsUp h' = shieldsUp h /\ shieldStrength h' = shieldStrength h.

Lemma decayFlash_frozen h dt :
  isDestroyed h = true -> frozen h (decayFlash h dt).
Proof.
  intro H; unfold decayFlash, frozen; destruct (qlt 0 (damageFlash h)); cbn;
    repeat split; assumption.
Qed.

Lemma frozen_trans h h1 h2 : frozen h h1 -> frozen h1 h2 -> frozen h h2.
Proof.
  unfold frozen; intros (A1 & B1 & C1 & D1 & E1) (A2 & B2 & C2 & D2 & E2).
  repeat split; congruence.
Qed.

Lemma frozen_refl h : isDestroyed h = true -> frozen h h.
Proof. unfold frozen; intro; repeat split; assumption. Qed.

(** Along any sequence of hits and timer ticks, a destroyed ship stays
    destroyed, and its hull and shields never change again (only its
    damage flash decays). *)
Theorem destroyed_stays_frozen (c : CombatState) (ops : list CombatOp) :
  (isDestroyed (enemyHealth c) = true ->
     frozen (enemyHealth c) (enemyHealth (runCombat c ops))) /\
  (isDestroyed (playerHealth c) = true ->
     frozen (playerHealth c) (playerHealth (runCombat c ops))).
Proof.
  revert c; induction ops as [|op ops IH]; intro c.
  - split; apply frozen_refl.
  - cbn [runCombat fold_left].
    change (fold_left combatStep ops (combatStep c op))
      with (runCombat (combatStep c op) ops).
    assert (S1 : isDestroyed (enemyHealth c) = true ->
                 frozen (enemyHealth c) (enemyHealth (combatStep c op))).
    { intro H; destruct op; cbn.
      - now apply frozen_refl.
      - rewrite applyDamage_on_destroyed by exact H; now apply frozen_refl.
      - now apply decayFlash_frozen. }
    assert (S2 : isDestroyed (playerHealth c) = true ->
                 frozen (playerHealth c) (playerHealth (combatStep c op))).
    { intro H; destruct op; cbn.
      - rewrite applyDamage_on_destroyed by exact H; now apply frozen_refl.
      - now apply frozen_refl.
      - now apply decayFlash_frozen. }
    destruct (IH (combatStep c op)) as [I1 I2]; split; intro H.
    + pose proof (S1 H) as F; eapply frozen_trans; [exact F|apply I1, F].
    + pose proof (S2 H) as F; eapply frozen_trans; [exact F|apply I2, F].
Qed.

Lemma destroyed_stays_frozen_witness :
  isDestroyed (enemyHealth (runCombat createCombatState [DamageEnemy 100])) = true /\
  frozen (enemyHealth (runCombat createCombatState [DamageEnemy 100]))
         (enemyHealth (runCombat (runCombat createCombatState [DamageEnemy 100])
                        [DamageEnemy (-50); Timers (1 # 10); DamageEnemy 30])).
Proof.
  assert (H : isDestroyed (enemyHealth (runCombat createCombatState
                                          [DamageEnemy 100])) = true)
    by reflexivity.
  split; [exact H|].
  exact (proj1 (destroyed_stays_frozen _ _) H).
Defined.

(** The per-frame timer tick decays each damage flash by [3 * delta]
    toward 0, never below it, and changes no other health field. *)
Theorem updateCombatTimers_flash (c : CombatState) (delta : Q) :
  0 <= delta ->
  (0 <= damageFlash (playerHealth c) ->
     0 <= damageFlash (playerHealth (updateCombatTimers c delta)) <=
          damageFlash (playerHealth c)) /\
  (0 <= damageFlash (enemyHealth c) ->
     0 <= damageFlash (enemyHealth (updateCombatTimers c delta)) <=
          damageFlash (enemyHealth c)) /\
  hull (playerHealth (updateCombatTimers c delta)) = hull (playerHealth c) /\
  hull (enemyHealth (updateCombatTimers c delta)) = hull (enemyHealth c) /\
  shieldStrength (playerHealth (updateCombatTimers c delta))
    = shieldStrength (playerHealth c) /\
  shieldStrength (enemyHealth (updateCombatTimers c delta))
    = shieldStrength (enemyHealth c).
Proof.
  intro Hdt.
  assert (K : forall h, 0 <= damageFlash h ->
              0 <= damageFlash (decayFlash h delta) <= damageFlash h).
  { intros h H0; unfold decayFlash; destruct (qlt 0 (damageFlash h)) eqn:E; cbn.
    - apply qlt_spec in E; split; [apply js_max_ge_l|].
      rewrite js_max_Qmax; apply Q.max_lub; [exact H0|].
      apply (Qplus_le_l _ _ (3 * delta)); ring_simplify.
      rewrite <- (Qplus_0_r (damageFlash h)) at 1.
      apply Qplus_le_r.
      apply (Qmult_le_l 0 delta 3) in Hdt; [|reflexivity].
      now ring_simplify in Hdt.
    - split; [exact H0|apply Qle_refl]. }
  unfold updateCombatTimers; cbn.
  split; [apply K|split; [apply K|]].
  unfold decayFlash.
  destruct (qlt 0 (damageFlash (playerHealth c))),
           (qlt 0 (damageFlash (enemyHealth c))); cbn; repeat split.
Qed.

Lemma updateCombatTimers_flash_witness :
  0 <= damageFlash (enemyHealth (updateCombatTimers
         (setEnemyHealth createCombatState (mkShipHealth 90 100 false 100 false 1))
         (1 # 2))) <= 1.
Proof.
  apply (proj1 (proj2 (updateCombatTimers_flash
    (setEnemyHealth createCombatState (mkShipHealth 90 100 false 100 false 1))
    (1 # 2) ltac:(discriminate)))); discriminate.
Defined.

End CombatMore.

(* ================================================================== *)
(** ** [checkTorpedoHits] *)

Module TorpedoFacts.
Import Combat Vec TorpedoHits.

Lemma iter_shift {A} (f : A -> A) n x : Nat.iter n f (f x) = f (Nat.iter n f x).
Proof. induction n as [|n IH]; [reflexivity|]; change (f (Nat.iter n f (f x)) = f (f (Nat.iter n f x))); now rewrite IH. Qed.

(** The indices of the torpedoes within hit distance, in order. *)
Definition inRange (sqrt : Q -> Q) (ts : list Vector3) (enemyPosition : Vector3)
    (i : nat) : list nat :=
  map fst (filter (fun kt => qlt (distanceTo sqrt (snd kt) enemyPosition)
                                 HIT_DISTANCE_TORPEDO)
                  (combine (seq i (List.length ts)) ts)).

Lemma hitLoop_spec sqrt ts enemyPosition : forall i eh,
  hitLoop sqrt i ts enemyPosition eh =
  (inRange sqrt ts enemyPosition i,
   Nat.iter (List.length (inRange sqrt ts enemyPosition i))
            (fun h => applyDamage h TORPEDO_DAMAGE) eh).
Proof.
  unfold inRange; induction ts as [|t ts IH]; intros i eh; [reflexivity|].
  cbn [hitLoop List.length seq combine filter snd].
  destruct (qlt (distanceTo sqrt t enemyPosition) HIT_DISTANCE_TORPEDO).
  - rewrite IH; cbn [map fst List.length]; f_equal;
    exact (iter_shift (fun h => applyDamage h TORPEDO_DAMAGE) _ eh).
  - apply IH.
Qed.

(** [checkTorpedoHits] on a destroyed enemy reports nothing and changes
    nothing; otherwise it reports exactly the indices of the torpedoes
    closer than the hit distance (also those past the one that destroys
    the enemy), applies one torpedo hit per reported index to the enemy,
    and leaves the player and the outcome alone. *)
Theorem checkTorpedoHits_spec (sqrt : Q -> Q) (c : CombatState)
    (ts : list Vector3) (enemyPosition : Vector3) :
  checkTorpedoHits sqrt c ts enemyPosition =
  if isDestroyed (enemyHealth c) then (c, [])
  else (setEnemyHealth c
          (Nat.iter (List.length (inRange sqrt ts enemyPosition 0))
                    (fun h => applyDamage h TORPEDO_DAMAGE) (enemyHealth c)),
        inRange sqrt ts enemyPosition 0).
Proof.
  unfold checkTorpedoHits; destruct (isDestroyed (enemyHealth c)); [reflexivity|].
  now rewrite hitLoop_spec.
Qed.

End TorpedoFacts.

(* ================================================================== *)
(** ** More of ship-controller.ts and input-manager.ts *)

Module ShipMore.
Import Input Ship ShipFacts.

Lemma js_min_le_l a b : js_min a b <= a.
Proof.
  unfold js_min; destruct (Qle_bool a b) eqn:E; [apply Qle_refl|].
  apply Qlt_le_weak, Qnot_le_lt; intro H; apply Qle_bool_iff in H; congruence.
Qed.

Lemma js_min_le_r a b : js_min a b <= b.
Proof.
  unfold js_min; destruct (Qle_bool a b) eqn:E; [now apply Qle_bool_iff|apply Qle_refl].
Qed.

Lemma js_min_glb a b c : c <= a -> c <= b -> c <= js_min a b.
Proof. unfold js_min; now destruct (Qle_bool a b). Qed.

Lemma js_max_lub a b c : a <= c -> b <= c -> js_max a b <= c.
Proof. unfold js_max; now destruct (Qle_bool a b). Qed.

(** [wasJustPressed] leaves the held keys alone. *)
Lemma wasJustPressed_keys i code : keys (snd (wasJustPressed i code)) = keys i.
Proof. unfold wasJustPressed; now destruct existsb. Qed.

(** The fields the digit loop and the warp block never write. *)
Definition sameRest (s s' : GameState) : Prop :=
  speed s' = speed s /\ shieldsActive s' = shieldsActive s /\
  shieldStrength s' = shieldStrength s /\ phaserCharge s' = phaserCharge s.

Lemma sameRest_trans a b c : sameRest a b -> sameRest b c -> sameRest a c.
Proof. unfold sameRest; intuition congruence. Qed.

Lemma throttleKeys_rest n : forall d s i,
  sameRest s (fst (throttleKeys n d s i)) /\
  keys (snd (throttleKeys n d s i)) = keys i.
Proof.
  induction n as [|n IH]; intros d s i; [repeat split|].
  cbn [throttleKeys].
  destruct (wasJustPressed i (digitKey d)) as [pressed i1] eqn:E.
  set (s1 := if pressed then _ else s).
  destruct (IH (S d) s1 i1) as [R K]; split.
  - eapply sameRest_trans; [|exact R].
    subst s1; destruct pressed; repeat split.
  - rewrite K; change i1 with (snd (pressed, i1)); rewrite <- E.
    apply wasJustPressed_keys.
Qed.

Lemma warpControl_rest s i :
  sameRest s (fst (warpControl s i)) /\ keys (snd (warpControl s i)) = keys i.
Proof.
  unfold warpControl.
  pose proof (wasJustPressed_keys i "CapsLock") as K.
  destruct (wasJustPressed i "CapsLock") as [caps i1]; cbn in K |- *.
  split; [|exact K].
  repeat match goal with |- context [if ?b then _ else _] => destruct b end;
    repeat split.
Qed.

(** The target speed [updateShip] ramps toward, for a state whose
    throttle and warp flag are final. *)
Definition effectiveTarget (s : GameState) : Q :=
  if isWarp s then throttle s * IMPULSE_MAX_SPEED * WARP_MULTIPLIER
  else throttle s * IMPULSE_MAX_SPEED.

(** [updateShip] after the digit loop and the warp block, field by
    field. *)
Lemma updateShip_tail (s : GameState) (i : InputManager) (delta : Q) :
  let s2 := fst (warpControl (fst (throttleKeys 10 0 s i))
                             (snd (throttleKeys 10 0 s i))) in
  let i2 := snd (warpControl (fst (throttleKeys 10 0 s i))
                             (snd (throttleKeys 10 0 s i))) in
  let r := fst (updateShip s i delta) in
  throttle r = throttle s2 /\ isWarp r = isWarp s2 /\
  speed r = (if qlt (speed s2) (effectiveTarget s2)
             then js_min (effectiveTarget s2) (speed s2 + (5 # 2) * delta)
             else if qlt (effectiveTarget s2) (speed s2)
             then js_max (effectiveTarget s2) (speed s2 - (5 # 2) * delta)
             else speed s2) /\
  phaserCharge r = (if qlt (phaserCharge s2) 100
                    then js_min 100 (phaserCharge s2 + PHASER_RECHARGE * delta)
                    else phaserCharge s2) /\
  phaserFiring r = isPressed i2 "Space" && qlt 5 (phaserCharge r) /\
  exists active,
    (shieldsActive r, shieldStrength r) =
    (if active && qlt 0 (shieldStrength s2) then
       let st := js_max 0 (shieldStrength s2 - (1 # 2) * delta) in
       (if qle st 0 then false else active, st)
     else (active, shieldStrength s2)).
Proof.
  unfold updateShip, effectiveTarget.
  destruct (throttleKeys 10 0 s i) as [s1 i1]; cbn [fst snd].
  destruct (warpControl s1 i1) as [s2 i2]; cbn [fst snd].
  destruct (wasJustPressed i2 "KeyT") as [t i3].
  destruct (wasJustPressed i3 "KeyX") as [xk i4].
  set (active := if xk then negb (shieldsActive s2) else shieldsActive s2).
  destruct (if active && qlt 0 (shieldStrength s2) then _ else _)
    as [a' st'] eqn:Sh.
  cbn -[js_max js_min qle qlt].
  repeat split; exists active; rewrite Sh; reflexivity.
Qed.

(** [updateShip] writes the speed, charge and shields from a state with
    the same speed, charge and shields as the one it is given. *)
Lemma updateShip_s2 (s : GameState) (i : InputManager) :
  let s2 := fst (warpControl (fst (throttleKeys 10 0 s i))
                             (snd (throttleKeys 10 0 s i))) in
  sameRest s s2 /\
  keys (snd (warpControl (fst (throttleKeys 10 0 s i))
                         (snd (throttleKeys 10 0 s i)))) = keys i.
Proof.
  destruct (throttleKeys_rest 10 0 s i) as [R1 K1].
  destruct (warpControl_rest (fst (throttleKeys 10 0 s i))
                             (snd (throttleKeys 10 0 s i))) as [R2 K2].
  split; [eapply sameRest_trans; eassumption|congruence].
Qed.

End ShipMore.

Module ShipMoreFacts.
Import Input Ship ShipFacts ShipMore.

(** The pending flag of digit key [d]. *)
Definition pressedIn (i : InputManager) (d : nat) : bool :=
  existsb (String.eqb (digitKey d)) (justPressed i).

(** The throttle the loop sets for digit [d]. *)
Definition digitValue (d : nat) : Q :=
  if Nat.eqb d 0 then 0 else inject_Z (Z.of_nat d) / 9.

Lemma digitKey_inj k d : (k < 10)%nat -> (d < 10)%nat -> digitKey k = digitKey d -> k = d.
Proof.
  intros Hk Hd H; unfold digitKey in H; cbn [String.append] in H.
  injection H as H.
  apply (f_equal Ascii.nat_of_ascii) in H.
  rewrite !Ascii.nat_ascii_embedding in H by lia; lia.
Qed.

Lemma pressed_other i d k : (d < 10)%nat -> (k < 10)%nat -> d <> k ->
  pressedIn (snd (wasJustPressed i (digitKey d))) k = pressedIn i k.
Proof.
  intros Hd Hk Hne; unfold pressedIn; apply wasJustPressed_other.
  intro E; apply digitKey_inj in E; [lia|assumption|assumption].
Qed.

Lemma digitValue_bounds d : (d < 10)%nat -> 0 <= digitValue d <= 1.
Proof.
  intro H.
  do 10 (destruct d as [|d]; [split; vm_compute; discriminate|]); lia.
Qed.

Lemma throttleKeys_none n : forall d s i,
  (forall k, (d <= k < d + n)%nat -> pressedIn i k = false) ->
  throttle (fst (throttleKeys n d s i)) = throttle s.
Proof.
  induction n as [|n IH]; intros d s i H; [reflexivity|].
  cbn [throttleKeys].
  assert (P : wasJustPressed i (digitKey d) = (false, i)).
  { unfold wasJustPressed; unfold pressedIn in H; rewrite (H d) by lia.
    reflexivity. }
  rewrite P; apply IH; intros k Hk; apply H; lia.
Qed.

Lemma throttleKeys_last n : forall d s i k,
  (d + n <= 10)%nat -> (d <= k < d + n)%nat -> pressedIn i k = true ->
  (forall k', (k < k' < d + n)%nat -> pressedIn i k' = false) ->
  throttle (fst (throttleKeys n d s i)) = digitValue k.
Proof.
  induction n as [|n IH]; intros d s i k Hb Hk Hp Hn; [lia|].
  cbn [throttleKeys].
  destruct (wasJustPressed i (digitKey d)) as [pr i1] eqn:E.
  assert (Hi1 : forall j, (d < j < 10)%nat -> pressedIn i1 j = pressedIn i j).
  { intros j Hj; change i1 with (snd (pr, i1)); rewrite <- E.
    apply pressed_other; lia. }
  destruct (Nat.eq_dec k d) as [->|Hne].
  - assert (pr = true).
    { change pr with (fst (pr, i1)); rewrite <- E, wasJustPressed_fst; exact Hp. }
    subst pr; rewrite throttleKeys_none; [reflexivity|].
    intros j Hj; rewrite Hi1 by lia; apply Hn; lia.
  - apply IH; [lia|lia| |].
    + rewrite Hi1 by lia; exact Hp.
    + intros j Hj; rewrite Hi1 by lia; apply Hn; lia.
Qed.

Lemma throttleKeys_bounds n : forall d s i,
  (d + n <= 10)%nat -> 0 <= throttle s <= 1 ->
  0 <= throttle (fst (throttleKeys n d s i)) <= 1.
Proof.
  induction n as [|n IH]; intros d s i Hb Hs; [exact Hs|].
  cbn [throttleKeys].
  destruct (wasJustPressed i (digitKey d)) as [pr i1].
  apply IH; [lia|]; destruct pr; [|exact Hs].
  apply (digitValue_bounds d); lia.
Qed.

(** The throttle [updateShip] ends with is the digit loop's. *)
Lemma updateShip_throttle (s : GameState) (i : InputManager) (delta : Q) :
  throttle (fst (updateShip s i delta)) = throttle (fst (throttleKeys 10 0 s i)).
Proof.
  destruct (updateShip_tail s i delta) as (Ht & _).
  destruct (warpControl_spec (fst (throttleKeys 10 0 s i))
                             (snd (throttleKeys 10 0 s i))) as (Wt & _).
  now rewrite Ht, Wt.
Qed.

Lemma updateShip_throttle_bounds (s : GameState) (i : InputManager) (delta : Q) :
  0 <= throttle s <= 1 -> 0 <= throttle (fst (updateShip s i delta)) <= 1.
Proof.
  intro H; rewrite updateShip_throttle; now apply throttleKeys_bounds.
Qed.

(** The speed step of [updateShip] toward the frame's target. *)
Lemma updateShip_speed_step (s : GameState) (i : InputManager) (delta : Q) :
  0 <= delta ->
  let r := fst (updateShip s i delta) in
  (speed s <= effectiveTarget r -> speed s <= speed r <= effectiveTarget r) /\
  (effectiveTarget r <= speed s -> effectiveTarget r <= speed r <= speed s) /\
  speed r - speed s <= (5 # 2) * delta /\
  speed s - speed r <= (5 # 2) * delta.
Proof.
  intro Hd; cbv zeta.
  destruct (updateShip_tail s i delta) as (Ht & Hw & Hs & _).
  destruct (updateShip_s2 s i) as [[Sp _] _].
  set (s2 := fst (warpControl _ _)) in *.
  assert (E : effectiveTarget (fst (updateShip s i delta)) = effectiveTarget s2)
    by (unfold effectiveTarget; rewrite Ht, Hw; reflexivity).
  rewrite E, Hs, <- Sp.
  set (T := effectiveTarget s2); set (v := speed s2).
  destruct (qlt v T) eqn:A.
  - apply qlt_spec in A.
    pose proof (js_min_le_l T (v + (5 # 2) * delta)).
    pose proof (js_min_le_r T (v + (5 # 2) * delta)).
    assert (v <= js_min T (v + (5 # 2) * delta))
      by (apply js_min_glb; lra).
    repeat split; lra.
  - apply qlt_false in A; destruct (qlt T v) eqn:B.
    + apply qlt_spec in B.
      pose proof (js_max_ge_l T (v - (5 # 2) * delta)).
      pose proof (js_max_ge_r T (v - (5 # 2) * delta)).
      assert (js_max T (v - (5 # 2) * delta) <= v)
        by (apply js_max_lub; lra).
      repeat split; lra.
    + apply qlt_false in B; repeat split; lra.
Qed.

(** The speed ramp of [updateShip]: with a non-negative frame time the
    speed moves toward the frame's target speed (throttle, times 8 in
    warp) without overshooting it, by at most [2.5 * delta]. *)
Theorem updateShip_speed_ramp (s : GameState) (i : InputManager) (delta : Q) :
  0 <= delta ->
  let r := fst (updateShip s i delta) in
  (speed s <= effectiveTarget r -> speed s <= speed r <= effectiveTarget r) /\
  (effectiveTarget r <= speed s -> effectiveTarget r <= speed r <= speed s) /\
  speed r - speed s <= (5 # 2) * delta /\
  speed s - speed r <= (5 # 2) * delta.
Proof. apply updateShip_speed_step. Qed.

Lemma updateShip_speed_ramp_witness :
  0 <= 1 # 10 /\
  speed (fst (updateShip createGameState
                (mkInput [] ["Digit9"%string]) (1 # 10))) - speed createGameState
    <= (5 # 2) * (1 # 10).
Proof.
  split; [discriminate|].
  exact (proj1 (proj2 (proj2 (updateShip_speed_ramp createGameState
           (mkInput [] ["Digit9"%string]) (1 # 10) ltac:(discriminate))))).
Defined.

(** The digit keys of [updateShip]: with no digit pending the throttle is
    kept; otherwise the highest pending digit [d] wins and sets it to
    [d / 9] ([0] for [Digit0]); a throttle in [0, 1] stays there. *)
Theorem updateShip_throttle_digits (s : GameState) (i : InputManager)
    (delta : Q) :
  ((forall k, (k < 10)%nat -> pressedIn i k = false) ->
     throttle (fst (updateShip s i delta)) = throttle s) /\
  (forall d, (d < 10)%nat -> pressedIn i d = true ->
     (forall k, (d < k < 10)%nat -> pressedIn i k = false) ->
     throttle (fst (updateShip s i delta)) = digitValue d) /\
  (0 <= throttle s <= 1 -> 0 <= throttle (fst (updateShip s i delta)) <= 1).
Proof.
  split; [|split].
  - intro H; rewrite updateShip_throttle; apply throttleKeys_none.
    intros k Hk; apply H; lia.
  - intros d Hd Hp Hn; rewrite updateShip_throttle.
    apply throttleKeys_last; [lia|lia|exact Hp|].
    intros k Hk; apply Hn; lia.
  - apply updateShip_throttle_bounds.
Qed.

Lemma updateShip_throttle_digits_witness :
  pressedIn (mkInput [] ["Digit7"%string; "Digit3"%string]) 7 = true /\
  throttle (fst (updateShip createGameState
                   (mkInput [] ["Digit7"%string; "Digit3"%string]) (1 # 60)))
  = digitValue 7.
Proof.
  assert (H : pressedIn (mkInput [] ["Digit7"%string; "Digit3"%string]) 7 = true)
    by reflexivity.
  split; [exact H|].
  apply (proj1 (proj2 (updateShip_throttle_digits createGameState
           (mkInput [] ["Digit7"%string; "Digit3"%string]) (1 # 60))) 7%nat);
    [lia|exact H|].
  intros k Hk.
  do 10 (destruct k as [|k]; [lia || reflexivity|]); lia.
Defined.

(** The ship state [updateShip] keeps in range: a throttle in [0, 1],
    a speed in [0, 8] and a phaser charge in [0, 100] stay there, the
    charge never drops, and the shield strength stays non-negative and
    never grows. *)
Theorem updateShip_bounds (s : GameState) (i : InputManager) (delta : Q) :
  0 <= delta -> 0 <= throttle s <= 1 -> 0 <= speed s <= 8 ->
  0 <= phaserCharge s <= 100 -> 0 <= shieldStrength s ->
  let r := fst (updateShip s i delta) in
  0 <= throttle r <= 1 /\ 0 <= speed r <= 8 /\
  phaserCharge s <= phaserCharge r <= 100 /\
  0 <= shieldStrength r <= shieldStrength s.
Proof.
  intros Hd Ht Hv Hc Hst; cbv zeta.
  pose proof (updateShip_throttle_bounds s i delta Ht) as Tr.
  destruct (updateShip_speed_step s i delta Hd) as (R1 & R2 & _).
  destruct (updateShip_tail s i delta) as (_ & _ & _ & Hc' & _ & act & Hsh).
  destruct (updateShip_s2 s i) as [(_ & _ & Sst & Sc) _].
  set (s2 := fst (warpControl _ _)) in *.
  set (r := fst (updateShip s i delta)) in *.
  assert (T8 : 0 <= effectiveTarget r <= 8)
    by (unfold effectiveTarget, IMPULSE_MAX_SPEED, WARP_MULTIPLIER;
        destruct (isWarp r); lra).
  split; [exact Tr|split; [|split]].
  - destruct (Qlt_le_dec (speed s) (effectiveTarget r)) as [L|L];
      [specialize (R1 (Qlt_le_weak _ _ L))|specialize (R2 L)]; lra.
  - rewrite Hc', Sc; unfold PHASER_RECHARGE.
    destruct (qlt (phaserCharge s) 100) eqn:A.
    + pose proof (js_min_le_l 100 (phaserCharge s + 10 * delta)).
      assert (phaserCharge s <= js_min 100 (phaserCharge s + 10 * delta))
        by (apply js_min_glb; lra).
      lra.
    + lra.
  - rewrite Sst in Hsh.
    destruct (act && qlt 0 (shieldStrength s)); cbv zeta in Hsh.
    + injection Hsh as _ Hsh; rewrite Hsh; split; [apply js_max_ge_l|].
      apply js_max_lub; lra.
    + injection Hsh as _ Hsh; rewrite Hsh; lra.
Qed.

Lemma updateShip_bounds_witness :
  0 <= 1 # 60 /\ 0 <= throttle createGameState <= 1 /\
  0 <= speed createGameState <= 8 /\ 0 <= phaserCharge createGameState <= 100 /\
  0 <= shieldStrength createGameState /\
  0 <= speed (fst (updateShip createGameState
                     (mkInput [] ["Digit5"%string]) (1 # 60))) <= 8.
Proof.
  assert (A : 0 <= 1 # 60) by discriminate.
  assert (B : 0 <= throttle createGameState <= 1) by (split; discriminate).
  assert (C : 0 <= speed createGameState <= 8) by (split; discriminate).
  assert (D : 0 <= phaserCharge createGameState <= 100) by (split; discriminate).
  assert (E : 0 <= shieldStrength createGameState) by discriminate.
  split; [exact A|split; [exact B|split; [exact C|split; [exact D|split; [exact E|]]]]].
  exact (proj1 (proj2 (updateShip_bounds createGameState
           (mkInput [] ["Digit5"%string]) (1 # 60) A B C D E))).
Defined.

(** Phaser fire and shields after [updateShip]: the fire flag is set only
    while Space is held and the charge exceeds 5, and shields that had
    strength left are never left raised at strength 0 by the drain. *)
Theorem updateShip_fire_shields (s : GameState) (i : InputManager) (delta : Q) :
  let r := fst (updateShip s i delta) in
  (phaserFiring r = true -> isPressed i "Space" = true /\ 5 < phaserCharge r) /\
  (0 < shieldStrength s -> shieldsActive r = true -> 0 < shieldStrength r).
Proof.
  cbv zeta.
  destruct (updateShip_tail s i delta) as (_ & _ & _ & _ & Hf & act & Hsh).
  destruct (updateShip_s2 s i) as [(_ & _ & Sst & _) K].
  split.
  - rewrite Hf; intro H; apply andb_true_iff in H as [H1 H2].
    unfold isPressed in H1 |- *; rewrite K in H1.
    split; [exact H1|now apply qlt_spec].
  - intros Hpos Ha; rewrite Sst in Hsh.
    assert (P : qlt 0 (shieldStrength s) = true) by now apply qlt_spec.
    rewrite P, andb_true_r in Hsh.
    destruct act; cbv zeta in Hsh.
    + destruct (qle (js_max 0 (shieldStrength s - (1 # 2) * delta)) 0) eqn:Q;
        injection Hsh as H1 H2; [congruence|].
      rewrite H2; now apply qle_false.
    + injection Hsh as H1 _; congruence.
Qed.

Lemma updateShip_fire_shields_witness :
  0 < shieldStrength createGameState /\
  shieldsActive (fst (updateShip createGameState
                        (mkInput ["KeyX"%string] ["KeyX"%string]) (1 # 60))) = true /\
  0 < shieldStrength (fst (updateShip createGameState
                        (mkInput ["KeyX"%string] ["KeyX"%string]) (1 # 60))).
Proof.
  assert (A : 0 < shieldStrength createGameState) by reflexivity.
  assert (B : shieldsActive (fst (updateShip createGameState
                (mkInput ["KeyX"%string] ["KeyX"%string]) (1 # 60))) = true)
    by reflexivity.
  split; [exact A|split; [exact B|]].
  exact (proj2 (updateShip_fire_shields createGameState
           (mkInput ["KeyX"%string] ["KeyX"%string]) (1 # 60)) A B).
Defined.

(** [wasJustPressed] consumes exactly the key it reports: asking again
    for the same key answers [false], and the pending flags of the other
    keys and the held keys are left as they were. *)
Theorem wasJustPressed_consumes (i : InputManager) (code k : string) :
  fst (wasJustPressed (snd (wasJustPressed i code)) code) = false /\
  keys (snd (wasJustPressed i code)) = keys i /\
  (code <> k ->
     fst (wasJustPressed (snd (wasJustPressed i code)) k)
     = fst (wasJustPressed i k)).
Proof.
  split; [|split; [apply wasJustPressed_keys|]].
  - unfold wasJustPressed.
    destruct (existsb (String.eqb code) (justPressed i)) eqn:E; cbn; [|now rewrite E].
    assert (F : existsb (String.eqb code)
                  (filter (fun c => negb (String.eqb code c)) (justPressed i))
                = false).
    { clear E; induction (justPressed i) as [|c l IH]; [reflexivity|]; cbn.
      destruct (String.eqb_spec code c) as [->|Hc]; cbn; [exact IH|].
      rewrite IH; destruct (String.eqb_spec code c); [contradiction|reflexivity]. }
    now rewrite F.
  - intro Hne; rewrite !wasJustPressed_fst; now apply wasJustPressed_other.
Qed.

Lemma wasJustPressed_consumes_witness :
  fst (wasJustPressed (snd (wasJustPressed
        (mkInput [] ["KeyT"%string; "KeyX"%string]) "KeyT")) "KeyX") = true.
Proof.
  rewrite (proj2 (proj2 (wasJustPressed_consumes
             (mkInput [] ["KeyT"%string; "KeyX"%string]) "KeyT" "KeyX"))).
  - reflexivity.
  - discriminate.
Defined.

End ShipMoreFacts.

(* ================================================================== *)
(** ** More of [updateWeapons] *)

Module WeaponFacts.
Import Ship Weapons ShipMore.

(** The phaser-drain part of [updateWeapons]. *)
Definition drainPhaser (gs : GameState) (delta : Q) : GameState :=
  if phaserFiring gs then
    let charge := js_max 0 (phaserCharge gs - PHASER_DRAIN_RATE * delta) in
    {| throttle := throttle gs; speed := speed gs; isWarp := isWarp gs;
       shieldsActive := shieldsActive gs; shieldStrength := shieldStrength gs;
       phaserCharge := charge; torpedoCount := torpedoCount gs;
       phaserFiring := if qle charge 0 then false else phaserFiring gs;
       torpedoFiring := torpedoFiring gs |}
  else gs.

(** The beam spawn condition of [updateWeapons]. *)
Definition spawns (ws : WeaponSystemState) (gs : GameState) (delta : Q) : bool :=
  phaserFiring gs && qlt 5 (phaserCharge gs)
  && qle (js_max 0 (phaserCooldown ws - delta)) 0.

Lemma updateWeapons_eq ws gs delta :
  updateWeapons ws gs delta =
  ({| phaserBeams :=
        ageBeams (if spawns ws gs delta
                  then phaserBeams ws ++ [createPhaserBeamMesh]
                  else phaserBeams ws) delta;
      phaserCores :=
        ageCores (if spawns ws gs delta
                  then phaserCores ws ++ [createPhaserCoreOpacity]
                  else phaserCores ws) delta;
      torpedoes := ageTorpedoes (fst (fireTorpedo (torpedoes ws)
                                                  (drainPhaser gs delta))) delta;
      phaserCooldown := if spawns ws gs delta then PHASER_COOLDOWN
                        else js_max 0 (phaserCooldown ws - delta) |},
   snd (fireTorpedo (torpedoes ws) (drainPhaser gs delta))).
Proof.
  unfold updateWeapons, spawns, drainPhaser; cbv zeta.
  destruct (_ && _ && _); destruct (fireTorpedo _ _); reflexivity.
Qed.

Lemma fireTorpedo_phaser torps gs :
  phaserCharge (snd (fireTorpedo torps gs)) = phaserCharge gs /\
  phaserFiring (snd (fireTorpedo torps gs)) = phaserFiring gs.
Proof. unfold fireTorpedo; destruct (_ && _); split; reflexivity. Qed.

Lemma drainPhaser_torpedo gs d :
  torpedoCount (drainPhaser gs d) = torpedoCount gs /\
  torpedoFiring (drainPhaser gs d) = torpedoFiring gs.
Proof. unfold drainPhaser; destruct (phaserFiring gs); split; reflexivity. Qed.

Lemma ageBeams_alive bs delta b : In b (ageBeams bs delta) -> bage b < bmaxAge b.
Proof.
  unfold ageBeams; intro H; apply filter_In in H as [_ H].
  apply negb_true_iff, qle_false in H; exact H.
Qed.

Lemma ageCores_alive cs delta o : In o (ageCores cs delta) -> 0 < o.
Proof.
  unfold ageCores; intro H; apply filter_In in H as [_ H].
  apply negb_true_iff, qle_false in H; exact H.
Qed.

Lemma ageTorpedoes_alive ts delta t : In t (ageTorpedoes ts delta) -> tage t < tmaxAge t.
Proof.
  unfold ageTorpedoes; intro H; apply filter_In in H as [_ H].
  apply negb_true_iff, qle_false in H; exact H.
Qed.

(** What [updateWeapons] keeps true: the cooldown is never negative; the
    phaser only keeps firing with charge left, and the drain never raises
    the charge nor takes it below 0; every beam, core and torpedo left in
    the lists is still within its lifetime (age below its maximum, core
    opacity above 0). *)
Theorem updateWeapons_invariants (ws : WeaponSystemState) (gs : GameState)
    (delta : Q) :
  0 <= delta ->
  let ws' := fst (updateWeapons ws gs delta) in
  let gs' := snd (updateWeapons ws gs delta) in
  0 <= phaserCooldown ws' /\
  (phaserFiring gs' = true -> phaserFiring gs = true /\ 0 < phaserCharge gs') /\
  (0 <= phaserCharge gs -> 0 <= phaserCharge gs' <= phaserCharge gs) /\
  (forall b, In b (phaserBeams ws') -> bage b < bmaxAge b) /\
  (forall o, In o (phaserCores ws') -> 0 < o) /\
  (forall t, In t (torpedoes ws') -> tage t < tmaxAge t).
Proof.
  intro Hd; cbv zeta; rewrite updateWeapons_eq; cbn [fst snd].
  destruct (fireTorpedo_phaser (torpedoes ws) (drainPhaser gs delta)) as [C F].
  rewrite C, F.
  split; [|split; [|split; [|split; [|split]]]].
  - destruct (spawns ws gs delta); [vm_compute; discriminate|apply js_max_ge_l].
  - unfold drainPhaser; destruct (phaserFiring gs) eqn:P; cbn; [|intro H; congruence].
    destruct (qle (js_max 0 (phaserCharge gs - PHASER_DRAIN_RATE * delta)) 0) eqn:Q;
      [discriminate|].
    intros _; split; [reflexivity|now apply qle_false].
  - intro H0; unfold drainPhaser; destruct (phaserFiring gs); cbn; [|lra].
    split; [apply js_max_ge_l|apply js_max_lub; unfold PHASER_DRAIN_RATE; lra].
  - apply ageBeams_alive.
  - apply ageCores_alive.
  - apply ageTorpedoes_alive.
Qed.

Lemma updateWeapons_invariants_witness :
  0 <= 1 # 10 /\
  0 <= phaserCharge (mkGameState 0 0 false false 100 3 64 true false) /\
  phaserFiring (snd (updateWeapons createWeaponSystem
                      (mkGameState 0 0 false false 100 3 64 true false) (1 # 10)))
  = false.
Proof.
  assert (A : 0 <= 1 # 10) by discriminate.
  assert (B : 0 <= phaserCharge (mkGameState 0 0 false false 100 3 64 true false))
    by discriminate.
  split; [exact A|split; [exact B|]].
  destruct (phaserFiring (snd (updateWeapons createWeaponSystem
              (mkGameState 0 0 false false 100 3 64 true false) (1 # 10)))) eqn:E;
    [|reflexivity].
  destruct (proj1 (proj2 (updateWeapons_invariants createWeaponSystem
              (mkGameState 0 0 false false 100 3 64 true false) (1 # 10) A)) E)
    as [_ H].
  exfalso; revert H; vm_compute; discriminate.
Defined.

(** The phaser cooldown spaces the beams: of two consecutive
    [updateWeapons] frames, the second lasting less than the cooldown
    (0.15 s), at most one adds a beam and a core. *)
Theorem phaser_spawn_spacing (ws : WeaponSystemState) (gs gs' : GameState)
    (d1 d2 : Q) :
  0 <= d2 -> d2 < PHASER_COOLDOWN ->
  let ws1 := fst (updateWeapons ws gs d1) in
  let ws2 := fst (updateWeapons ws1 gs' d2) in
  (phaserBeams ws1 = ageBeams (phaserBeams ws) d1 /\
   phaserCores ws1 = ageCores (phaserCores ws) d1) \/
  (phaserBeams ws2 = ageBeams (phaserBeams ws1) d2 /\
   phaserCores ws2 = ageCores (phaserCores ws1) d2).
Proof.
  intros H0 Hlt; cbv zeta.
  rewrite (updateWeapons_eq ws gs d1); cbn [fst phaserBeams phaserCores].
  destruct (spawns ws gs d1) eqn:S1; [right|left; split; reflexivity].
  rewrite (updateWeapons_eq _ gs' d2); cbn [fst phaserBeams phaserCores].
  assert (S2 : spawns {| phaserBeams := ageBeams (phaserBeams ws ++ [createPhaserBeamMesh]) d1;
                         phaserCores := ageCores (phaserCores ws ++ [createPhaserCoreOpacity]) d1;
                         torpedoes := ageTorpedoes (fst (fireTorpedo (torpedoes ws)
                                                           (drainPhaser gs d1))) d1;
                         phaserCooldown := PHASER_COOLDOWN |} gs' d2 = false).
  { unfold spawns; cbn [phaserCooldown].
    assert (P : qle (js_max 0 (PHASER_COOLDOWN - d2)) 0 = false).
    { apply qle_false; eapply Qlt_le_trans; [|apply js_max_ge_r]; lra. }
    rewrite P; apply andb_false_r. }
  rewrite S2; split; reflexivity.
Qed.

Lemma phaser_spawn_spacing_witness :
  0 <= 1 # 10 /\ 1 # 10 < PHASER_COOLDOWN /\
  phaserBeams (fst (updateWeapons (fst (updateWeapons createWeaponSystem
     createGameState (1 # 10))) createGameState (1 # 10)))
  = ageBeams (phaserBeams (fst (updateWeapons createWeaponSystem
     createGameState (1 # 10)))) (1 # 10).
Proof.
  assert (A : 0 <= 1 # 10) by discriminate.
  assert (B : 1 # 10 < PHASER_COOLDOWN) by reflexivity.
  split; [exact A|split; [exact B|]].
  destruct (phaser_spawn_spacing createWeaponSystem createGameState createGameState
              (1 # 10) (1 # 10) A B) as [[H _]|[H _]]; [|exact H].
  vm_compute; reflexivity.
Defined.

End WeaponFacts.

(* ================================================================== *)
(** ** More of [updateEnemyAI] *)

Module EnemyMore.
Import Combat Vec Enemy EnemyFacts.

Lemma moveEnemy_fields e d :
  behavior (moveEnemy e d) = behavior e /\ speed (moveEnemy e d) = speed e /\
  phaserFiring (moveEnemy e d) = phaserFiring e /\
  torpedoJustFired (moveEnemy e d) = torpedoJustFired e /\
  torpedoCooldown (moveEnemy e d) = torpedoCooldown e /\
  phaserCooldown (moveEnemy e d) = phaserCooldown e.
Proof. unfold moveEnemy; destruct (qlt 0 (speed e)); repeat split. Qed.

Lemma moveEnemy_still e d : speed e = 0 -> moveEnemy e d = e.
Proof. intro H; unfold moveEnemy; now rewrite H. Qed.

(** Case on every [if] of the goal. *)
Ltac split_ifs :=
  repeat match goal with
  | |- context [if ?b then _ else _] => let E := fresh "E" in destruct b eqn:E
  end.

Section AI.
Variables (sqrt cos sin : Q -> Q).
Variable lookSlerp : Quaternion -> Vector3 -> Vector3 -> Q -> Quaternion.

Lemma behaviorStep_torpedo e p c f dist pcd tcd :
  let e1 := fst (behaviorStep sqrt cos sin lookSlerp e p c f dist pcd tcd) in
  (torpedoJustFired e1 = true ->
     qle tcd 0 = true /\ torpedoCooldown e1 = TORPEDO_COOLDOWN) /\
  (torpedoJustFired e1 = false -> torpedoCooldown e1 = tcd).
Proof.
  cbv zeta; unfold behaviorStep.
  destruct (behavior e); cbv zeta; split_ifs; cbn; split; intro H;
    try discriminate; try reflexivity;
    repeat match goal with
           | K : _ && _ = true |- _ => apply andb_true_iff in K as [? ?]
           end;
    (split; [assumption|reflexivity]).
Qed.

Lemma behaviorStep_enemyHealth e p c f dist pcd tcd :
  isDestroyed (enemyHealth (snd (behaviorStep sqrt cos sin lookSlerp
                                   e p c f dist pcd tcd)))
  = isDestroyed (enemyHealth c).
Proof.
  unfold behaviorStep; destruct (behavior e); cbv zeta; split_ifs; reflexivity.
Qed.

(** One live frame of [updateEnemyAI], as the torpedo cooldown sees it. *)
Lemma updateEnemyAI_torpedo e p c f :
  isDestroyed (enemyHealth c) = false ->
  let e' := fst (updateEnemyAI sqrt cos sin lookSlerp e p c f) in
  (torpedoJustFired e' = true ->
     torpedoCooldown e <= fdelta f /\ torpedoCooldown e' = TORPEDO_COOLDOWN) /\
  (torpedoJustFired e' = false -> torpedoCooldown e - fdelta f <= torpedoCooldown e') /\
  isDestroyed (enemyHealth (snd (updateEnemyAI sqrt cos sin lookSlerp e p c f)))
  = false.
Proof.
  intro Hd; cbv zeta; unfold updateEnemyAI; rewrite Hd; cbv zeta.
  set (tcd := js_max 0 (torpedoCooldown e - fdelta f)).
  pose proof (behaviorStep_torpedo e p c f
                (vlength sqrt (vsub p (position e)))
                (js_max 0 (phaserCooldown e - fdelta f)) tcd) as [T1 T2].
  pose proof (behaviorStep_enemyHealth e p c f
                (vlength sqrt (vsub p (position e)))
                (js_max 0 (phaserCooldown e - fdelta f)) tcd) as He.
  destruct (behaviorStep sqrt cos sin lookSlerp e p c f _ _ tcd) as [e1 c1].
  cbn [fst snd] in T1, T2, He |- *.
  destruct (moveEnemy_fields e1 (fdelta f)) as (_ & _ & _ & Mt & Mc & _).
  rewrite Mt, Mc; split; [|split; [|congruence]].
  - intro H; destruct (T1 H) as [A B]; split; [|exact B].
    apply qle_spec in A.
    pose proof (js_max_ge_r 0 (torpedoCooldown e - fdelta f)); subst tcd; lra.
  - intro H; rewrite (T2 H); apply js_max_ge_r.
Qed.

Lemma runEnemyAI_cons e p c f fs :
  runEnemyAI sqrt cos sin lookSlerp e p c (f :: fs)
  = runEnemyAI sqrt cos sin lookSlerp
      (fst (updateEnemyAI sqrt cos sin lookSlerp e p c f)) p
      (snd (updateEnemyAI sqrt cos sin lookSlerp e p c f)) fs.
Proof. cbn [runEnemyAI]; now destruct (updateEnemyAI _ _ _ _ e p c f). Qed.

(** The enemy threaded through successive frames of the game loop, each
    with the player's position and the combat state that frame's
    [updateEnemyAI] call sees: the player moves freely and the combat
    state may change between frames (the player's weapons, the timers);
    nothing but [updateEnemyAI] writes to the enemy. *)
Fixpoint runEnemyFrames (e : EnemyShip)
    (steps : list (Vector3 * CombatState * Frame)) : EnemyShip :=
  match steps with
  | [] => e
  | (p, c, f) :: rest =>
      runEnemyFrames (fst (updateEnemyAI sqrt cos sin lookSlerp e p c f)) rest
  end.

Definition liveStep (s : Vector3 * CombatState * Frame) : Prop :=
  isDestroyed (enemyHealth (snd (fst s))) = false.

Lemma runEnemyFrames_app e st1 st2 :
  runEnemyFrames e (st1 ++ st2) = runEnemyFrames (runEnemyFrames e st1) st2.
Proof.
  revert e; induction st1 as [|[[p c] f] st1 IH]; intro e; [reflexivity|].
  cbn [app runEnemyFrames]; apply IH.
Qed.

(** Over live frames, a torpedo shot comes no earlier than the starting
    torpedo cooldown has run out. *)
Lemma frames_torpedo_cooldown st : forall e,
  Forall liveStep st -> Forall (fun s => 0 <= fdelta (snd s)) st ->
  st <> [] ->
  torpedoJustFired (runEnemyFrames e st) = true ->
  torpedoCooldown e <= qsum (map (fun s => fdelta (snd s)) st).
Proof.
  induction st as [|[[p c] f] st IH]; intros e Hl Hf Hne Ht; [congruence|].
  cbn [runEnemyFrames] in Ht.
  inversion Hl as [|? ? Hl0 Hls]; subst.
  inversion Hf as [|? ? Hf0 Hfs]; subst.
  unfold liveStep in Hl0; cbn [fst snd] in Hl0, Hf0.
  destruct (updateEnemyAI_torpedo e p c f Hl0) as (A & B & _).
  change (qsum (map (fun s => fdelta (snd s)) ((p, c, f) :: st)))
    with (fdelta f + qsum (map (fun s => fdelta (snd s)) st)).
  assert (N : 0 <= qsum (map (fun s => fdelta (snd s)) st))
    by (apply qsum_nonneg, Forall_map; exact Hfs).
  destruct st as [|s' st'].
  - cbn [runEnemyFrames] in Ht; destruct (A Ht) as [A1 _]; lra.
  - pose proof (IH _ Hls Hfs ltac:(discriminate) Ht) as I.
    destruct (torpedoJustFired (fst (updateEnemyAI sqrt cos sin lookSlerp e p c f)))
      eqn:T.
    + destruct (A eq_refl) as [A1 _]; lra.
    + pose proof (B eq_refl); lra.
Qed.

(** After a live frame that fires a torpedo, the cooldown is full. *)
Lemma frames_fired_cooldown st : forall e,
  Forall liveStep st -> st <> [] ->
  torpedoJustFired (runEnemyFrames e st) = true ->
  torpedoCooldown (runEnemyFrames e st) = TORPEDO_COOLDOWN.
Proof.
  intros e Hl Hne.
  destruct (exists_last Hne) as (st0 & [[p c] f] & ->).
  rewrite runEnemyFrames_app; cbn [runEnemyFrames].
  apply Forall_app in Hl; destruct Hl as [_ Hl].
  inversion Hl as [|? ? Hl0 _]; subst.
  apply (updateEnemyAI_torpedo _ p c f Hl0).
Qed.

(** A destroyed enemy stays where and as it is: over any frames the
    combat state is left unchanged, the behaviour and position are kept,
    and after at least one frame it has speed 0 and no phaser fire. *)
Theorem enemy_destroyed_inert (e : EnemyShip) (p : Vector3) (c : CombatState)
    (fs : list Frame) :
  isDestroyed (enemyHealth c) = true ->
  let e' := fst (runEnemyAI sqrt cos sin lookSlerp e p c fs) in
  snd (runEnemyAI sqrt cos sin lookSlerp e p c fs) = c /\
  behavior e' = behavior e /\ position e' = position e /\
  (fs <> [] -> speed e' = 0 /\ phaserFiring e' = false).
Proof.
  intro Hd; cbv zeta; revert e.
  induction fs as [|f fs IH]; intro e; [repeat split; congruence|].
  rewrite runEnemyAI_cons.
  assert (S : updateEnemyAI sqrt cos sin lookSlerp e p c f =
              (rebuild e (position e) (quaternion e) (behavior e) 0
                 (phaserCooldown e) (torpedoCooldown e) false
                 (torpedoJustFired e) (alertTimer e) (orbitAngle e), c))
    by (unfold updateEnemyAI; now rewrite Hd).
  rewrite S; cbn [fst snd].
  destruct fs as [|f' fs'].
  - cbn; repeat split; reflexivity.
  - destruct (IH (rebuild e (position e) (quaternion e) (behavior e) 0
                 (phaserCooldown e) (torpedoCooldown e) false
                 (torpedoJustFired e) (alertTimer e) (orbitAngle e)))
      as (A & B & C & D).
    split; [exact A|split; [exact B|split; [exact C|]]].
    intros _; apply D; discriminate.
Qed.

(** While idle or on alert the enemy never fires and never damages the
    player: the player's health and the game outcome are untouched and
    the enemy holds still with its phaser off. *)
Theorem enemy_idle_alert_harmless (e : EnemyShip) (p : Vector3)
    (c : CombatState) (f : Frame) :
  behavior e = idle \/ behavior e = alert ->
  let r := updateEnemyAI sqrt cos sin lookSlerp e p c f in
  playerHealth (snd r) = playerHealth c /\ gameOver (snd r) = gameOver c /\
  speed (fst r) = 0 /\ phaserFiring (fst r) = false.
Proof.
  intro Hb; cbv zeta; unfold updateEnemyAI.
  destruct (isDestroyed (enemyHealth c)); [cbn; repeat split|].
  cbv zeta; unfold behaviorStep.
  destruct Hb as [Hb|Hb]; rewrite Hb; cbv zeta; split_ifs;
    rewrite moveEnemy_still by reflexivity; cbn; repeat split.
Qed.

(** An attacking enemy whose hull has fallen below 30 turns evasive: that
    frame it fires nothing and the combat state is unchanged. *)
Theorem enemy_attack_flees (e : EnemyShip) (p : Vector3) (c : CombatState)
    (f : Frame) :
  behavior e = attack -> isDestroyed (enemyHealth c) = false ->
  hull (enemyHealth c) < EVASIVE_HULL_THRESHOLD ->
  let r := updateEnemyAI sqrt cos sin lookSlerp e p c f in
  behavior (fst r) = evasive /\ snd r = c /\
  phaserFiring (fst r) = false /\ torpedoJustFired (fst r) = false.
Proof.
  intros Hb Hd Hh; apply qlt_spec in Hh; cbv zeta.
  unfold updateEnemyAI; rewrite Hd; cbv zeta; unfold behaviorStep.
  rewrite Hb, Hh; cbn [fst snd].
  destruct (moveEnemy_fields (rebuild e (position e) (quaternion e) evasive
              (speed e) (js_max 0 (phaserCooldown e - fdelta f))
              (js_max 0 (torpedoCooldown e - fdelta f)) false false
              (alertTimer e) (orbitAngle e)) (fdelta f))
    as (M1 & _ & M3 & M4 & _).
  rewrite M1, M3, M4; repeat split.
Qed.

Lemma evasive_step e p c f :
  behavior e = evasive -> isDestroyed (enemyHealth c) = false ->
  let r := updateEnemyAI sqrt cos sin lookSlerp e p c f in
  behavior (fst r) =
    (if qlt (EVASIVE_HULL_THRESHOLD + 10) (hull (enemyHealth c))
        || qlt DETECTION_RANGE (vlength sqrt (vsub p (position e)))
     then attack else evasive) /\
  enemyHealth (snd r) = enemyHealth c.
Proof.
  intros Hb Hd; cbv zeta.
  unfold updateEnemyAI; rewrite Hd; cbv zeta; unfold behaviorStep.
  rewrite Hb; cbv zeta.
  split_ifs; cbv beta iota zeta in *;
    cbn [applyEnemyDamageToPlayer setPlayerHealth enemyHealth fst snd] in *;
    try congruence;
    rewrite (proj1 (moveEnemy_fields _ _)); cbn [behavior rebuild];
    split; reflexivity.
Qed.

(** An evasive enemy goes back to the attack exactly when its hull is
    above 40 or the player is farther than 500; otherwise it stays
    evasive.  Its own health is not changed by the frame. *)
Theorem enemy_evasive_exit (e : EnemyShip) (p : Vector3) (c : CombatState)
    (f : Frame) :
  behavior e = evasive -> isDestroyed (enemyHealth c) = false ->
  let r := updateEnemyAI sqrt cos sin lookSlerp e p c f in
  enemyHealth (snd r) = enemyHealth c /\
  (behavior (fst r) = attack \/ behavior (fst r) = evasive) /\
  (behavior (fst r) = attack <->
   EVASIVE_HULL_THRESHOLD + 10 < hull (enemyHealth c) \/
   DETECTION_RANGE < vlength sqrt (vsub p (position e))).
Proof.
  intros Hb Hd; cbv zeta.
  destruct (evasive_step e p c f Hb Hd) as [B H]; rewrite B.
  split; [exact H|].
  destruct (qlt (EVASIVE_HULL_THRESHOLD + 10) (hull (enemyHealth c))) eqn:H1;
    [apply qlt_spec in H1|apply qlt_false in H1];
  destruct (qlt DETECTION_RANGE (vlength sqrt (vsub p (position e)))) eqn:H2;
    [apply qlt_spec in H2|apply qlt_false in H2|apply qlt_spec in H2|apply qlt_false in H2];
    cbn [orb]; (split; [auto|]); split; intro K; auto; try discriminate.
  destruct K as [K|K]; exfalso;
    [exact (Qlt_not_le _ _ K H1)|exact (Qlt_not_le _ _ K H2)].
Qed.

(** The enemy's torpedoes are at least 5 s apart: whatever the player
    does and however the combat state changes between frames, after a
    live frame that fires one, the live frames up to and including the
    next shot add up to at least the torpedo cooldown. *)
Theorem enemy_torpedo_spacing (e : EnemyShip)
    (st1 st2 : list (Vector3 * CombatState * Frame)) :
  Forall liveStep (st1 ++ st2) ->
  Forall (fun s => 0 <= fdelta (snd s)) st2 -> st1 <> [] -> st2 <> [] ->
  torpedoJustFired (runEnemyFrames e st1) = true ->
  torpedoJustFired (runEnemyFrames e (st1 ++ st2)) = true ->
  TORPEDO_COOLDOWN <= qsum (map (fun s => fdelta (snd s)) st2).
Proof.
  intros Hl Hf H1 H2 T1 T2.
  apply Forall_app in Hl; destruct Hl as [Hl1 Hl2].
  rewrite <- (frames_fired_cooldown st1 e Hl1 H1 T1).
  rewrite runEnemyFrames_app in T2.
  exact (frames_torpedo_cooldown st2 _ Hl2 Hf H2 T2).
Qed.

End AI.

(** An attacking enemy at full health, 100 ahead of the player, with its
    torpedo ready. *)
Definition attackEnemy : EnemyShip :=
  mkEnemy (mkVec 0 0 0) (mkQuat 0 0 0 1) attack 0 0 0 false false 0 0
          (mkVec 0 0 0) 0.

(** Two frames with the player moving from 100 to 150 ahead and the
    player's shields hit in between. *)
Definition spacingFrames1 : list (Vector3 * CombatState * Frame) :=
  [(mkVec 0 0 (-100), createCombatState, mkFrame (1 # 10) 1 0)].

Definition spacingFrames2 : list (Vector3 * CombatState * Frame) :=
  [(mkVec 0 0 (-150),
    setPlayerHealth createCombatState
      (applyDamage (playerHealth createCombatState) 20),
    mkFrame 5 1 0)].

Lemma enemy_torpedo_spacing_witness :
  torpedoJustFired (runEnemyFrames sqrtQ cos0 sin0 noTurn attackEnemy
                      spacingFrames1) = true /\
  torpedoJustFired (runEnemyFrames sqrtQ cos0 sin0 noTurn attackEnemy
                      (spacingFrames1 ++ spacingFrames2)) = true /\
  TORPEDO_COOLDOWN <= qsum (map (fun s => fdelta (snd s)) spacingFrames2).
Proof.
  assert (A : torpedoJustFired (runEnemyFrames sqrtQ cos0 sin0 noTurn attackEnemy
                                  spacingFrames1) = true)
    by (vm_compute; reflexivity).
  assert (B : torpedoJustFired (runEnemyFrames sqrtQ cos0 sin0 noTurn attackEnemy
                                  (spacingFrames1 ++ spacingFrames2)) = true)
    by (vm_compute; reflexivity).
  split; [exact A|split; [exact B|]].
  apply (enemy_torpedo_spacing sqrtQ cos0 sin0 noTurn attackEnemy
           spacingFrames1 spacingFrames2);
    [|repeat constructor; vm_compute; discriminate
     |discriminate|discriminate|exact A|exact B].
  repeat constructor; unfold liveStep; vm_compute; reflexivity.
Defined.

Lemma enemy_destroyed_inert_witness :
  let c := setEnemyHealth createCombatState (applyDamage (createShipHealth 100) 200) in
  isDestroyed (enemyHealth c) = true /\
  snd (runEnemyAI sqrtQ cos0 sin0 noTurn attackEnemy (mkVec 0 0 (-100)) c
         [mkFrame (1 # 10) 0 0; mkFrame 1 0 0]) = c.
Proof.
  cbv zeta.
  assert (H : isDestroyed (enemyHealth (setEnemyHealth createCombatState
                 (applyDamage (createShipHealth 100) 200))) = true)
    by reflexivity.
  split; [exact H|].
  exact (proj1 (enemy_destroyed_inert sqrtQ cos0 sin0 noTurn attackEnemy
           (mkVec 0 0 (-100)) _ [mkFrame (1 # 10) 0 0; mkFrame 1 0 0] H)).
Defined.

Lemma enemy_idle_alert_harmless_witness :
  playerHealth (snd (updateEnemyAI sqrtQ cos0 sin0 noTurn idleEnemy
     (mkVec 0 0 (-100)) createCombatState (mkFrame (1 # 10) 0 0)))
  = playerHealth createCombatState.
Proof.
  exact (proj1 (enemy_idle_alert_harmless sqrtQ cos0 sin0 noTurn idleEnemy
           (mkVec 0 0 (-100)) createCombatState (mkFrame (1 # 10) 0 0)
           (or_introl eq_refl))).
Defined.

Lemma enemy_attack_flees_witness :
  let c := setEnemyHealth createCombatState (mkShipHealth 20 100 false 0 false 0) in
  hull (enemyHealth c) < EVASIVE_HULL_THRESHOLD /\
  behavior (fst (updateEnemyAI sqrtQ cos0 sin0 noTurn attackEnemy
     (mkVec 0 0 (-100)) c (mkFrame (1 # 10) 0 0))) = evasive.
Proof.
  cbv zeta.
  assert (H : hull (enemyHealth (setEnemyHealth createCombatState
                (mkShipHealth 20 100 false 0 false 0))) < EVASIVE_HULL_THRESHOLD)
    by reflexivity.
  split; [exact H|].
  exact (proj1 (enemy_attack_flees sqrtQ cos0 sin0 noTurn attackEnemy
           (mkVec 0 0 (-100))
           (setEnemyHealth createCombatState (mkShipHealth 20 100 false 0 false 0))
           (mkFrame (1 # 10) 0 0) eq_refl eq_refl H)).
Defined.

Lemma enemy_evasive_exit_witness :
  behavior (fst (updateEnemyAI sqrtQ cos0 sin0 noTurn
     (mkEnemy (mkVec 0 0 0) (mkQuat 0 0 0 1) evasive 0 0 0 false false 0 0
              (mkVec 0 0 0) 0)
     (mkVec 0 0 (-100)) createCombatState (mkFrame (1 # 10) 0 0))) = attack.
Proof.
  apply (proj2 (proj2 (enemy_evasive_exit sqrtQ cos0 sin0 noTurn
           (mkEnemy (mkVec 0 0 0) (mkQuat 0 0 0 1) evasive 0 0 0 false false 0 0
                    (mkVec 0 0 0) 0)
           (mkVec 0 0 (-100)) createCombatState (mkFrame (1 # 10) 0 0)
           eq_refl eq_refl))).
  left; reflexivity.
Defined.

End EnemyMore.

(* ================================================================== *)
(** ** Warp travel *)

Module TravelFacts.
Import Ship Travel ShipMore.

(** The phase a travel phase hands over to. *)
Definition nextPhase (ph : TravelPhase) : TravelPhase :=
  match ph with
  | tidle => tidle
  | charging => warping
  | warping => arriving
  | arriving => tidle
  end.

(** [updateTravel] moves through the phases one step at a time, in the
    order charging, warping, arriving, idle; it reports [started-warp]
    exactly on the step from charging to warping and [arrived] exactly on
    the step from arriving to idle; when idle it does nothing. *)
Theorem updateTravel_phases (u : UniverseState) (gs : GameState) (delta : Q) :
  let t := updateTravel u gs delta in
  (travelPhase (fst (fst t)) = travelPhase u \/
   travelPhase (fst (fst t)) = nextPhase (travelPhase u)) /\
  (snd t = started_warp <->
   travelPhase u = charging /\ travelPhase (fst (fst t)) = warping) /\
  (snd t = arrived <->
   travelPhase u = arriving /\ travelPhase (fst (fst t)) = tidle) /\
  (travelPhase u = tidle -> t = (u, gs, none)).
Proof.
  cbv zeta; unfold updateTravel.
  destruct (travelPhase u) eqn:P; cbv zeta; EnemyMore.split_ifs;
    try (unfold arriveAtDestination; destruct (destination u));
    cbn; repeat split; auto; intros; try discriminate;
    repeat match goal with H : _ /\ _ |- _ => destruct H end; try discriminate.
Qed.

(** The ship's motion during travel: while warping (with a positive
    duration) progress stays in [0, 1], warp is on and the speed is
    between 5 and 8; while arriving warp is off and the speed is between
    0.3 and 1. *)
Theorem updateTravel_speed (u : UniverseState) (gs : GameState) (delta : Q) :
  0 <= delta -> 0 <= travelTimer u ->
  let t := updateTravel u gs delta in
  (travelPhase u = warping -> 0 < travelDuration u ->
     0 <= travelProgress (fst (fst t)) <= 1 /\
     isWarp (snd (fst t)) = true /\ 5 <= speed (snd (fst t)) <= 8) /\
  (travelPhase u = arriving ->
     isWarp (snd (fst t)) = false /\ 3 # 10 <= speed (snd (fst t)) <= 1).
Proof.
  intros Hd Ht; cbv zeta; unfold updateTravel.
  split; intro P; rewrite P; cbv zeta.
  - intro Hdur.
    set (prog := js_min 1 ((travelTimer u + delta) / travelDuration u)).
    assert (Hp : 0 <= prog <= 1).
    { split; [|apply js_min_le_l].
      apply js_min_glb; [lra|].
      apply Qle_shift_div_l; [exact Hdur|lra]. }
    destruct (qle 1 prog); cbn; (split; [exact Hp|split; [reflexivity|lra]]).
  - set (sp := js_max (3 # 10) (1 - (travelTimer u + delta) / ARRIVAL_TIME)).
    assert (Hs : 3 # 10 <= sp <= 1).
    { split; [apply js_max_ge_l|apply js_max_lub; [lra|]].
      assert (0 <= (travelTimer u + delta) / ARRIVAL_TIME)
        by (apply Qle_shift_div_l; [reflexivity|lra]).
      lra. }
    destruct (qle ARRIVAL_TIME (travelTimer u + delta)); cbn;
      [unfold arriveAtDestination; destruct (destination u); cbn|];
      (split; [reflexivity|]); try exact Hs; lra.
Qed.

(** Arrival: the arriving frame that reaches 1.5 s with a destination set
    makes the destination the current system (marked discovered), clears
    the destination, goes idle with the timer and progress at 0, drops
    out of warp at throttle and speed 0.3, and reports [arrived]; the
    next [updateTravel] then does nothing. *)
Theorem updateTravel_arrival (u : UniverseState) (gs : GameState) (delta : Q)
    (d : StarSystem) :
  travelPhase u = arriving -> destination u = Some d ->
  ARRIVAL_TIME <= travelTimer u + delta ->
  let t := updateTravel u gs delta in
  snd t = arrived /\
  currentSystemId (fst (fst t)) = sid d /\
  currentSystem (fst (fst t)) =
    mkSystem (sid d) (mapX d) (mapY d) (connections d) true /\
  destinationId (fst (fst t)) = None /\ destination (fst (fst t)) = None /\
  travelPhase (fst (fst t)) = tidle /\ travelTimer (fst (fst t)) = 0 /\
  travelProgress (fst (fst t)) = 0 /\
  throttle (snd (fst t)) = 3 # 10 /\ speed (snd (fst t)) = 3 # 10 /\
  isWarp (snd (fst t)) = false /\
  torpedoCount (snd (fst t)) = torpedoCount gs /\
  forall gs' delta', updateTravel (fst (fst t)) gs' delta' = (fst (fst t), gs', none).
Proof.
  intros P D T; cbv zeta; unfold updateTravel; rewrite P; cbv zeta.
  assert (Q : qle ARRIVAL_TIME (travelTimer u + delta) = true) by now apply qle_spec.
  rewrite Q; unfold arriveAtDestination; cbn [destination setU]; rewrite D.
  cbn; repeat split.
Qed.

Section Universe.
Variable sqrt : Q -> Q.
Variable STAR_SYSTEMS : list StarSystem.

(** [initiateWarp] starts charging exactly when a destination is set, the
    ship is idle and the throttle is at least 0.1; it then sets a trip of
    at least 3 s with the timer and progress at 0, and when it refuses it
    changes nothing.  After [clearDestination] it always refuses. *)
Theorem initiateWarp_spec (u : UniverseState) (gs : GameState) :
  (snd (initiateWarp sqrt u gs) = true <->
   destination u <> None /\ travelPhase u = tidle /\ 1 # 10 <= throttle gs) /\
  (snd (initiateWarp sqrt u gs) = true ->
   travelPhase (fst (initiateWarp sqrt u gs)) = charging /\
   WARP_MIN_DURATION <= travelDuration (fst (initiateWarp sqrt u gs)) /\
   travelTimer (fst (initiateWarp sqrt u gs)) = 0 /\
   travelProgress (fst (initiateWarp sqrt u gs)) = 0 /\
   destination (fst (initiateWarp sqrt u gs)) = destination u) /\
  (snd (initiateWarp sqrt u gs) = false -> fst (initiateWarp sqrt u gs) = u) /\
  snd (initiateWarp sqrt (clearDestination u) gs) = false.
Proof.
  unfold initiateWarp.
  split; [|split; [|split]].
  - destruct (destination u) as [d|]; [|cbn; split; [discriminate|intros [H _]; congruence]].
    destruct (travelPhase u) eqn:P; cbn;
      try (split; [discriminate|intros (_ & H & _); discriminate]).
    destruct (qlt (throttle gs) (1 # 10)) eqn:Q; cbn.
    + apply qlt_spec in Q; split; [discriminate|intros (_ & _ & H); lra].
    + apply qlt_false in Q; split; [intros _; split; [discriminate|auto]|auto].
  - destruct (destination u) as [d|]; [|discriminate].
    destruct (negb (travelPhase_eqb (travelPhase u) tidle)); [discriminate|].
    destruct (qlt (throttle gs) (1 # 10)); [discriminate|].
    intros _; cbn; repeat split; apply js_max_ge_l.
  - destruct (destination u) as [d|]; [|reflexivity].
    destruct (negb (travelPhase_eqb (travelPhase u) tidle)); [reflexivity|].
    destruct (qlt (throttle gs) (1 # 10)); [reflexivity|discriminate].
  - reflexivity.
Qed.

(** [cancelWarp] succeeds exactly while charging, going back to idle with
    the destination kept, so that [initiateWarp] can start the same trip
    again at a throttle of at least 0.1; otherwise it changes nothing. *)
Theorem cancelWarp_spec (u : UniverseState) (gs : GameState) :
  (snd (cancelWarp u) = true <-> travelPhase u = charging) /\
  (snd (cancelWarp u) = false -> fst (cancelWarp u) = u) /\
  (travelPhase u = charging -> destination u <> None ->
     travelPhase (fst (cancelWarp u)) = tidle /\
     destination (fst (cancelWarp u)) = destination u /\
     (snd (initiateWarp sqrt (fst (cancelWarp u)) gs) = true <->
      1 # 10 <= throttle gs)).
Proof.
  unfold cancelWarp.
  split; [|split].
  - destruct (travelPhase u); split; intro H; try discriminate; reflexivity.
  - destruct (travelPhase u); intro H; try discriminate; reflexivity.
  - intros P D; rewrite P; cbn; split; [reflexivity|split; [reflexivity|]].
    unfold initiateWarp; cbn.
    destruct (destination u) as [d|]; [cbn|congruence].
    destruct (qlt (throttle gs) (1 # 10)) eqn:Q; cbn.
    + apply qlt_spec in Q; split; [discriminate|intro; lra].
    + apply qlt_false in Q; split; auto.
Qed.

(** [setDestination] refuses the current system and any system that is
    not among those connected to it, changing nothing; on success it
    records the system's id and the connected system with that id,
    leaving the travel phase alone. *)
Theorem setDestination_spec (u : UniverseState) (systemId : string) :
  (systemId = currentSystemId u -> setDestination STAR_SYSTEMS u systemId = (u, false)) /\
  (snd (setDestination STAR_SYSTEMS u systemId) = false ->
     fst (setDestination STAR_SYSTEMS u systemId) = u) /\
  (snd (setDestination STAR_SYSTEMS u systemId) = true ->
     systemId <> currentSystemId u /\
     destinationId (fst (setDestination STAR_SYSTEMS u systemId)) = Some systemId /\
     travelPhase (fst (setDestination STAR_SYSTEMS u systemId)) = travelPhase u /\
     exists d, destination (fst (setDestination STAR_SYSTEMS u systemId)) = Some d /\
       sid d = systemId /\ In d (getConnectedSystems STAR_SYSTEMS (currentSystemId u))).
Proof.
  unfold setDestination.
  split; [intros ->; now rewrite String.eqb_refl|].
  destruct (String.eqb_spec systemId (currentSystemId u)) as [E|E];
    [split; [reflexivity|discriminate]|].
  destruct (find (fun s => String.eqb (sid s) systemId)
                 (getConnectedSystems STAR_SYSTEMS (currentSystemId u))) as [d|] eqn:F;
    [|split; [reflexivity|discriminate]].
  split; [discriminate|intros _].
  apply find_some in F as [Fin Fid]; apply String.eqb_eq in Fid.
  cbn; repeat split; [exact E|].
  exists d; auto.
Qed.

End Universe.

(** Two connected systems 500 apart on the map. *)
Definition sol : StarSystem := mkSystem "sol" 0 0 ["vega"%string] true.
Definition vega : StarSystem := mkSystem "vega" 300 400 ["sol"%string] false.

Definition atSol : UniverseState :=
  mkUniverse "sol" sol None None tidle 0 0 0 false.

Definition arrivingAtVega : UniverseState :=
  mkUniverse "sol" sol (Some "vega"%string) (Some vega) arriving 1 20 1 false.

Lemma updateTravel_speed_witness :
  0 <= 1 # 10 /\ 0 <= travelTimer arrivingAtVega /\
  isWarp (snd (fst (updateTravel arrivingAtVega createGameState (1 # 10)))) = false.
Proof.
  assert (A : 0 <= 1 # 10) by discriminate.
  assert (B : 0 <= travelTimer arrivingAtVega) by discriminate.
  split; [exact A|split; [exact B|]].
  exact (proj1 (proj2 (updateTravel_speed arrivingAtVega createGameState (1 # 10)
                         A B) eq_refl)).
Defined.

Lemma updateTravel_arrival_witness :
  ARRIVAL_TIME <= travelTimer arrivingAtVega + 1 /\
  currentSystemId (fst (fst (updateTravel arrivingAtVega createGameState 1)))
  = "vega"%string.
Proof.
  assert (A : ARRIVAL_TIME <= travelTimer arrivingAtVega + 1) by discriminate.
  split; [exact A|].
  exact (proj1 (proj2 (updateTravel_arrival arrivingAtVega createGameState 1 vega
                         eq_refl eq_refl A))).
Defined.

Lemma cancelWarp_spec_witness :
  travelPhase (fst (initiateWarp Vec.sqrtQ
     (fst (setDestination [sol; vega] atSol "vega")) (set_throttle createGameState 1)))
  = charging /\
  travelPhase (fst (cancelWarp (fst (initiateWarp Vec.sqrtQ
     (fst (setDestination [sol; vega] atSol "vega")) (set_throttle createGameState 1)))))
  = tidle.
Proof.
  assert (A : travelPhase (fst (initiateWarp Vec.sqrtQ
     (fst (setDestination [sol; vega] atSol "vega")) (set_throttle createGameState 1)))
     = charging) by reflexivity.
  split; [exact A|].
  refine (proj1 (proj2 (proj2 (cancelWarp_spec Vec.sqrtQ _ createGameState)) A _)).
  vm_compute; discriminate.
Defined.

Lemma updateTravel_phases_witness :
  snd (updateTravel arrivingAtVega createGameState 1) = arrived.
Proof.
  apply (proj2 (proj1 (proj2 (proj2
           (updateTravel_phases arrivingAtVega createGameState 1))))).
  split; reflexivity.
Defined.

Lemma initiateWarp_spec_witness :
  snd (initiateWarp Vec.sqrtQ (fst (setDestination [sol; vega] atSol "vega"))
                    (set_throttle createGameState 1)) = true.
Proof.
  apply (proj2 (proj1 (initiateWarp_spec Vec.sqrtQ
           (fst (setDestination [sol; vega] atSol "vega"))
           (set_throttle createGameState 1)))).
  split; [discriminate|split; [reflexivity|discriminate]].
Defined.

Lemma setDestination_spec_witness :
  destinationId (fst (setDestination [sol; vega] atSol "vega")) = Some "vega"%string.
Proof.
  exact (proj1 (proj2 (proj2 (proj2 (setDestination_spec [sol; vega] atSol "vega"))
                         eq_refl))).
Defined.

End TravelFacts.

(* ================================================================== *)
(** ** Voice commands followed by the frame updates *)

Module VoiceFacts.
Import Input Ship Weapons Voice ShipFacts ShipMore ShipMoreFacts WeaponFacts.

(** [ENGAGE_WARP] raises a throttle below 0.1 to exactly 1 (and keeps
    any other throttle) and turns warp on, so that the next [updateShip]
    with no CapsLock and no digit pending keeps the ship in warp. *)
Theorem voice_engage_warp_holds (gs : GameState) (i : InputManager) (delta : Q) :
  (forall k, (k < 10)%nat -> pressedIn i k = false) ->
  existsb (String.eqb "CapsLock") (justPressed i) = false ->
  throttle (executeVoiceCommand ENGAGE_WARP gs)
    = (if qlt (throttle gs) (1 # 10) then 1 else throttle gs) /\
  isWarp (executeVoiceCommand ENGAGE_WARP gs) = true /\
  isWarp (fst (updateShip (executeVoiceCommand ENGAGE_WARP gs) i delta)) = true.
Proof.
  intros Hk Hc.
  assert (T : throttle (executeVoiceCommand ENGAGE_WARP gs)
              = (if qlt (throttle gs) (1 # 10) then 1 else throttle gs))
    by (cbn -[qlt]; now destruct (qlt (throttle gs) (1 # 10))).
  set (g := executeVoiceCommand ENGAGE_WARP gs) in *.
  assert (G : 1 # 10 <= throttle g /\ isWarp g = true).
  { subst g; cbn -[qlt]; destruct (qlt (throttle gs) (1 # 10)) eqn:Q; cbn.
    - split; [discriminate|reflexivity].
    - apply qlt_false in Q; split; [exact Q|reflexivity]. }
  destruct G as [G1 G2]; split; [exact T|split; [exact G2|]].
  destruct (updateShip_fields g i delta) as (_ & Hw & _).
  rewrite Hw.
  destruct (throttleKeys_frame 10 0 g i) as (Kw & _ & Kc).
  assert (Kt : throttle (fst (throttleKeys 10 0 g i)) = throttle g)
    by (apply throttleKeys_none; intros k Hk'; apply Hk; lia).
  destruct (throttleKeys 10 0 g i) as [s1 i1]; cbn [fst snd] in *.
  unfold warpControl, wasJustPressed; rewrite Kc, Hc; cbn [fst].
  assert (Q : qle (throttle s1) (1 # 20) = false)
    by (apply qle_false; rewrite Kt; lra).
  rewrite Kw, G2, Q; cbn [andb]; rewrite Kw; exact G2.
Qed.

Lemma voice_engage_warp_holds_witness :
  throttle (executeVoiceCommand ENGAGE_WARP createGameState) = 1 /\
  isWarp (fst (updateShip (executeVoiceCommand ENGAGE_WARP createGameState)
                 (mkInput [] []) (1 # 60))) = true.
Proof.
  destruct (voice_engage_warp_holds createGameState (mkInput [] []) (1 # 60))
    as (T & _ & W); [intros; reflexivity|reflexivity|].
  split; [rewrite T; vm_compute; reflexivity|exact W].
Defined.

(** [SET_THROTTLE 0] sets the throttle to 0 but leaves the warp flag as
    it was; the next [updateShip] with no digit pending then drops warp,
    whatever CapsLock does. *)
Theorem voice_throttle_zero_drops_warp (gs : GameState) (i : InputManager)
    (delta : Q) :
  (forall k, (k < 10)%nat -> pressedIn i k = false) ->
  throttle (executeVoiceCommand (SET_THROTTLE 0) gs) = 0 /\
  isWarp (executeVoiceCommand (SET_THROTTLE 0) gs) = isWarp gs /\
  isWarp (fst (updateShip (executeVoiceCommand (SET_THROTTLE 0) gs) i delta))
  = false.
Proof.
  intro Hk; split; [reflexivity|split; [reflexivity|]].
  set (g := executeVoiceCommand (SET_THROTTLE 0) gs).
  destruct (updateShip_fields g i delta) as (Ht & Hw & _).
  destruct (warpControl_spec (fst (throttleKeys 10 0 g i))
                             (snd (throttleKeys 10 0 g i))) as (Wt & _ & Wok & _).
  assert (Kt : throttle (fst (throttleKeys 10 0 g i)) = 0)
    by (apply throttleKeys_none; intros k Hk'; apply Hk; lia).
  rewrite Hw; apply not_true_is_false; intro W.
  specialize (Wok W); rewrite Wt, Kt in Wok; discriminate.
Qed.

Lemma voice_throttle_zero_drops_warp_witness :
  isWarp (fst (updateShip (executeVoiceCommand (SET_THROTTLE 0)
                             (set_isWarp (set_throttle createGameState 1) true))
                 (mkInput [] ["CapsLock"%string]) (1 # 60))) = false.
Proof.
  apply (voice_throttle_zero_drops_warp
           (set_isWarp (set_throttle createGameState 1) true)
           (mkInput [] ["CapsLock"%string]) (1 # 60)).
  intros k Hk; do 10 (destruct k as [|k]; [reflexivity|]); lia.
Defined.

(** [FIRE_TORPEDO] with an empty magazine changes nothing; with torpedoes
    left, the next [updateWeapons] launches one: the count drops by one,
    a torpedo is appended, and the fire intent is cleared. *)
Theorem voice_fire_torpedo (gs : GameState) (ws : WeaponSystemState) (delta : Q) :
  (torpedoCount gs = 0%Z -> executeVoiceCommand FIRE_TORPEDO gs = gs) /\
  ((0 < torpedoCount gs)%Z ->
   let r := updateWeapons ws (executeVoiceCommand FIRE_TORPEDO gs) delta in
   torpedoCount (snd r) = (torpedoCount gs - 1)%Z /\
   torpedoes (fst r) = ageTorpedoes (torpedoes ws ++ [createTorpedoMesh]) delta /\
   torpedoFiring (snd r) = false).
Proof.
  split.
  - intro H; cbn; now rewrite H.
  - intro H; cbv zeta; rewrite updateWeapons_eq; cbn [fst snd torpedoes].
    assert (E : Z.ltb 0 (torpedoCount gs) = true) by now apply Z.ltb_lt.
    set (g := executeVoiceCommand FIRE_TORPEDO gs).
    assert (G : torpedoFiring g = true /\ torpedoCount g = torpedoCount gs)
      by (subst g; cbn; rewrite E; split; reflexivity).
    destruct (drainPhaser_torpedo g delta) as [C F].
    unfold fireTorpedo; rewrite F, C, (proj1 G), (proj2 G), E; cbn.
    repeat split.
Qed.

Lemma voice_fire_torpedo_witness :
  torpedoCount (snd (updateWeapons createWeaponSystem
     (executeVoiceCommand FIRE_TORPEDO createGameState) (1 # 60))) = 63%Z.
Proof.
  exact (proj1 (proj2 (voice_fire_torpedo createGameState createWeaponSystem
                         (1 # 60)) eq_refl)).
Defined.

(** [FIRE_PHASERS] sets the fire flag, but [updateShip] recomputes it from
    the Space key every frame: without Space held the next frame turns
    the phaser off again. *)
Theorem voice_fire_phasers_one_frame (gs : GameState) (i : InputManager)
    (delta : Q) :
  isPressed i "Space" = false ->
  phaserFiring (executeVoiceCommand FIRE_PHASERS gs) = true /\
  phaserFiring (fst (updateShip (executeVoiceCommand FIRE_PHASERS gs) i delta))
  = false.
Proof.
  intro Hs; split; [reflexivity|].
  destruct (updateShip_tail (executeVoiceCommand FIRE_PHASERS gs) i delta)
    as (_ & _ & _ & _ & Hf & _).
  destruct (updateShip_s2 (executeVoiceCommand FIRE_PHASERS gs) i) as [_ K].
  rewrite Hf; unfold isPressed in *; rewrite K, Hs; reflexivity.
Qed.

Lemma voice_fire_phasers_one_frame_witness :
  phaserFiring (fst (updateShip (executeVoiceCommand FIRE_PHASERS createGameState)
                       (mkInput [] []) (1 # 60))) = false.
Proof.
  exact (proj2 (voice_fire_phasers_one_frame createGameState (mkInput [] [])
                  (1 # 60) eq_refl)).
Defined.

End VoiceFacts.
